(** * DoH transport, IP preference sets and the DNS-over-TCP forwarder

    A shallow embedding of the Go sources of the Intra DoH client:

    - [src/tunnel/intra/doh.go]   : module [Doh]          (first transport)
    - [src/unnamed/part_002]      : module [DohStatus]    (status-code transport)
    - [src/unnamed/part_003]      : module [DohClassified](classified errors)
    - [src/unnamed/part_001]      : module [IPMap]        (package ipmap)
    - [src/unnamed/part_004]      : module [IntraIPSet]   (package intra, ipSet)

    Go slices are lists; a nil slice or nil pointer is [None] where the code
    tests for nil.  Buffers the code mutates in place (the query [q], the
    stored address list) are threaded explicitly: every function returns the
    buffer as the caller sees it afterwards.  The Go standard library
    (resolver, URL parser, HTTP client, writers) is the environment: its
    functions are Section variables or record fields. *)

From Stdlib Require Import ZArith Strings.Byte.
From stdpp Require Import base option list gmap strings.

Open Scope Z_scope.

#[global] Instance byte_eq_decision : EqDecision byte := Byte.byte_eq_dec.

(** ** Go values shared by every package *)

(** An [error] value.  [fmt.Errorf] keeps its format string and arguments;
    errors coming out of the standard library are opaque; [QueryError] is
    a [*queryError] of [src/unnamed/part_003], which wraps another error
    together with a status code. *)
Inductive fmtarg :=
| ArgInt (n : Z)
| ArgStr (s : string).

Inductive error :=
| Errorf (format : string) (args : list fmtarg)
| LibError (what : string)
| QueryError (status : Z) (err : error).

(** [(T, error)] results of constructors that return either a value or an
    error. *)
Inductive result (A : Type) :=
| Ok (a : A)
| Err (e : error).
Arguments Ok {A} a.
Arguments Err {A} e.

#[global] Instance result_ret : MRet result := fun _ a => Ok a.
#[global] Instance result_bind : MBind result := fun _ _ f r =>
  match r with
  | Ok a => f a
  | Err e => Err e
  end.

(** *** package net *)
Module net.

(** [type IP []byte] *)
Definition IP := list byte.

Definition IPv4len : nat := 4.
Definition IPv6len : nat := 16.

Definition v4InV6Prefix : list byte :=
  [x00; x00; x00; x00; x00; x00; x00; x00; x00; x00; xff; xff].

(** [bytealg.Equal] *)
Definition bytes_Equal (a b : list byte) : bool := bool_decide (a = b).

(** [func (ip IP) Equal(x IP) bool]: an IPv4 address and the same address
    in IPv4-in-IPv6 form are equal. *)
Definition IP_Equal (ip x : IP) : bool :=
  if decide (length ip = length x) then bytes_Equal ip x
  else if decide (length ip = IPv4len ∧ length x = IPv6len) then
    bytes_Equal (take 12 x) v4InV6Prefix && bytes_Equal ip (drop 12 x)
  else if decide (length ip = IPv6len ∧ length x = IPv4len) then
    bytes_Equal (take 12 ip) v4InV6Prefix && bytes_Equal (drop 12 ip) x
  else false.

(** A nil [net.IP] has length 0. *)
Definition of_nilable (ip : option IP) : IP := default [] ip.

(** The 16-byte form [net.IPv4(a, b, c, d)], which [net.ParseIP] returns
    for a dotted-decimal string. *)
Definition IPv4 (a b c d : byte) : IP := v4InV6Prefix ++ [a; b; c; d].

End net.

(** ** package ipmap ([src/unnamed/part_001]) *)
Module IPMap.
Import net.

(** [type IPSet struct { sync.RWMutex; ips []net.IP; confirmed net.IP }] *)
Record IPSet := mkIPSet {
  ips : list IP;
  confirmed : option IP
}.

(** [&IPSet{}] *)
Definition new : IPSet := mkIPSet [] None.

(** The closure [has] of [Add], reading the current [s.ips]. *)
Definition has (s_ips : list IP) (ip : IP) : bool :=
  existsb (fun oldIP => IP_Equal oldIP ip) s_ips.

(** The loop of [Add]: [for _, ip := range resolved]. *)
Fixpoint union (s_ips resolved : list IP) : list IP :=
  match resolved with
  | [] => s_ips
  | ip :: rest =>
      if has s_ips ip then union s_ips rest
      else union (s_ips ++ [ip]) rest
  end.

Section WithLibrary.
(** [net.LookupIP] with its error dropped, and [net.ParseIP]. *)
Variable LookupIP : string → list IP.
Variable ParseIP : string → option IP.

Definition Add_resolved (s : IPSet) (resolved : list IP) : IPSet :=
  mkIPSet (union (ips s) resolved) (confirmed s).

Definition Add (s : IPSet) (hostname : string) : IPSet :=
  Add_resolved s (LookupIP hostname).

Definition Empty (s : IPSet) : bool :=
  bool_decide (length (ips s) = 0%nat).

Definition Confirmed (s : IPSet) : option IP := confirmed s.

Definition Confirm (s : IPSet) (ipstr : string) : IPSet :=
  match ParseIP ipstr with
  | Some ip => mkIPSet (ips s) (Some ip)
  | None => s
  end.

Definition Disconfirm (s : IPSet) (ip : IP) : IPSet :=
  if IP_Equal ip (of_nilable (confirmed s))
  then mkIPSet (ips s) None
  else s.
End WithLibrary.

(** *** [ipMap.Get] under interleaving

    [*IPSet] pointers are indices into a heap of sets, so that identity
    and contents are distinct.  A call of [Get] takes the lock three
    times; what happens under one lock is one atomic step. *)
Definition ptr := nat.

Record ipMap := mkIpMap {
  heap : list IPSet;
  m : gmap string ptr
}.

(** [NewIPMap()] *)
Definition NewIPMap : ipMap := mkIpMap [] ∅.

(** Where a call of [Get(hostname)] stands. *)
Inductive call :=
| AtRLock (hostname : string)            (* before [m.RLock()] *)
| AtBuild (hostname : string)            (* before [s = &IPSet{}] *)
| AtLock (hostname : string) (s : ptr)   (* before [m.Lock()] *)
| Returned (hostname : string) (s : ptr).

Record world := mkWorld {
  shared : ipMap;
  calls : list call
}.

Definition start : world := mkWorld NewIPMap [].

(** One step of one call.  [resolved] is what the resolver answers if the
    step is the one that runs [s.Add(hostname)]. *)
Definition step_call (resolved : list IP) (mp : ipMap) (c : call)
  : ipMap * call :=
  match c with
  | AtRLock hostname =>
      match m mp !! hostname with
      | Some s => (mp, Returned hostname s)
      | None => (mp, AtBuild hostname)
      end
  | AtBuild hostname =>
      let s := length (heap mp) in
      (mkIpMap (heap mp ++ [Add_resolved new resolved]) (m mp),
       AtLock hostname s)
  | AtLock hostname s =>
      match m mp !! hostname with
      | None => (mkIpMap (heap mp) (<[hostname := s]> (m mp)),
                 Returned hostname s)
      | Some s2 => (mp, Returned hostname s2)
      end
  | Returned hostname s => (mp, c)
  end.

(** What the scheduler and the clients of the sets may do. *)
Inductive event :=
| Call (hostname : string)                   (* a new [Get(hostname)] *)
| Run (tid : nat) (resolved : list IP)       (* call [tid] takes a step *)
| Mutate (s : ptr) (f : IPSet → IPSet).      (* a method of set [s] runs *)

Definition exec (w : world) (e : event) : world :=
  match e with
  | Call hostname => mkWorld (shared w) (calls w ++ [AtRLock hostname])
  | Run tid resolved =>
      match calls w !! tid with
      | Some c =>
          let '(mp, c') := step_call resolved (shared w) c in
          mkWorld mp (<[tid := c']> (calls w))
      | None => w
      end
  | Mutate s f =>
      match heap (shared w) !! s with
      | Some v =>
          mkWorld (mkIpMap (<[s := f v]> (heap (shared w))) (m (shared w)))
                  (calls w)
      | None => w
      end
  end.

Definition run (w : world) (es : list event) : world := fold_left exec es w.

(** *** [GetAll]

    [rand.Shuffle(len(c), swap)] calls the closure [swap] with pairs of
    indices below [len(c)]; which pairs is up to the generator. *)

(** The closure [func(i, j int) { c[i], c[j] = c[j], c[i] }]; [None] is
    the panic of an index out of range. *)
Definition swap (c : list IP) (i j : nat) : option (list IP) :=
  ci ← c !! i;
  cj ← c !! j;
  Some (<[j := ci]> (<[i := cj]> c)).

Fixpoint Shuffle (c : list IP) (pairs : list (nat * nat))
  : option (list IP) :=
  match pairs with
  | [] => Some c
  | (i, j) :: rest => c' ← swap c i j; Shuffle c' rest
  end.

(** [GetAll]: the copy [c], shuffled; the set itself is only read. *)
Definition GetAll (s : IPSet) (pairs : list (nat * nat))
  : option (list IP) :=
  let c := [] ++ ips s in
  Shuffle c pairs.

End IPMap.

(** ** package intra, [ipSet] and [ipMap] ([src/unnamed/part_004]) *)
Module IntraIPSet.
Import net.

Record ipSet := mkIpSet {
  ips : list IP;
  confirmed : option IP
}.

Definition has (s_ips : list IP) (ip : IP) : bool :=
  existsb (fun oldIP => IP_Equal oldIP ip) s_ips.

Fixpoint union (s_ips resolved : list IP) : list IP :=
  match resolved with
  | [] => s_ips
  | ip :: rest =>
      if has s_ips ip then union s_ips rest
      else union (s_ips ++ [ip]) rest
  end.

Section WithLibrary.
Variable LookupIP : string → list IP.
Variable ParseIP : string → option IP.

Definition add_resolved (s : ipSet) (resolved : list IP) : ipSet :=
  mkIpSet (union (ips s) resolved) (confirmed s).

Definition add (s : ipSet) (hostname : string) : ipSet :=
  add_resolved s (LookupIP hostname).

(** [return len(s.ips) > 0] *)
Definition empty (s : ipSet) : bool :=
  bool_decide (0 < length (ips s))%nat.

Definition getConfirmed (s : ipSet) : option IP := confirmed s.

(** The source names the parameter [ip] and parses [ipstr]; the string
    argument is what is parsed. *)
Definition confirm (s : ipSet) (ipstr : string) : ipSet :=
  match ParseIP ipstr with
  | Some ip => mkIpSet (ips s) (Some ip)
  | None => s
  end.

Definition disconfirm (s : ipSet) (ip : IP) : ipSet :=
  if IP_Equal ip (of_nilable (confirmed s))
  then mkIpSet (ips s) None
  else s.
End WithLibrary.

Definition ptr := nat.

Record ipMap := mkIpMap {
  heap : list ipSet;
  m : gmap string ptr
}.

(** [get] holds the mutex from entry to return, so a call is one step.
    [resolved] is the resolver's answer should [add] run. *)
Definition get (mp : ipMap) (hostname : string) (resolved : list IP)
  : ptr * ipMap :=
  match m mp !! hostname with
  | None =>
      let s := length (heap mp) in
      (s, mkIpMap (heap mp ++ [add_resolved (mkIpSet [] None) resolved])
                  (<[hostname := s]> (m mp)))
  | Some s => (s, mp)
  end.

(** A sequence of calls [get(h1), get(h2), ...] and what each returned. *)
Fixpoint gets (mp : ipMap) (hs : list (string * list IP))
  : list (string * ptr) * ipMap :=
  match hs with
  | [] => ([], mp)
  | (h, resolved) :: rest =>
      let '(s, mp1) := get mp h resolved in
      let '(log, mp2) := gets mp1 rest in
      ((h, s) :: log, mp2)
  end.

End IntraIPSet.

(** ** Byte slices and big-endian lengths *)
Module slices.

(** [q[i]] at an index the code has checked to be in range. *)
Definition index (q : list byte) (i : nat) : byte := default x00 (q !! i).

(** [q[0], q[1] = b0, b1] *)
Definition set01 (q : list byte) (b0 b1 : byte) : list byte :=
  <[1%nat := b1]> (<[0%nat := b0]> q).

(** The conversion [byte(v)] of an integer. *)
Definition byte_of_Z (v : Z) : byte :=
  default x00 (Byte.of_N (Z.to_N (v mod 256))).

Definition Z_of_byte (b : byte) : Z := Z.of_N (Byte.to_N b).

(** The conversion [uint16(n)]. *)
Definition uint16 (n : Z) : Z := n mod 65536.

Definition MaxUint16 : Z := 65535.

(** [binary.BigEndian.PutUint16(b, v)] on a slice of at least two bytes. *)
Definition PutUint16 (b : list byte) (v : Z) : list byte :=
  set01 b (byte_of_Z (Z.shiftr v 8)) (byte_of_Z v).

(** [binary.BigEndian.Uint16(b)] *)
Definition Uint16 (b : list byte) : Z :=
  Z.lor (Z.shiftl (Z_of_byte (index b 0)) 8) (Z_of_byte (index b 1)).

(** [make([]T, n)] for bytes. *)
Definition make (n : nat) : list byte := replicate n x00.

(** [copy(dst, src)]: the first [min(len(dst), len(src))] elements of
    [dst] are overwritten. *)
Definition copy {A} (dst src : list A) : list A :=
  take (length dst) src ++ drop (length src) dst.

(** [copy(dst[lo:], src)] as seen through [dst]. *)
Definition copy_at {A} (dst : list A) (lo : nat) (src : list A) : list A :=
  take lo dst ++ copy (drop lo dst) src.

(** [copy(dst[lo:hi], src)] as seen through [dst]. *)
Definition copy_range {A} (dst : list A) (lo hi : nat) (src : list A)
  : list A :=
  take lo dst ++ copy (take (hi - lo) (drop lo dst)) src ++ drop hi dst.

End slices.

(** ** package net/http, as far as the transport uses it *)
Module http.

Record Request := mkRequest {
  Method : string;
  URL : string;
  Header : list (string * string);
  Body : list byte
}.

(** [req.Header.Set(key, value)] *)
Definition Header_Set (req : Request) (key value : string) : Request :=
  mkRequest (Method req) (URL req)
    (filter (λ kv, kv.1 ≠ key) (Header req) ++ [(key, value)])
    (Body req).

Record Response := mkResponse {
  StatusCode : Z;
  Status : string;
  (** what [ioutil.ReadAll(response.Body)] returns *)
  ReadAll : list byte * option error
}.

(** The client and the server behind it.  [Do] also tells which remote
    host the [GotConn] trace hook saw, if it fired with an address. *)
Record Client := mkClient {
  NewRequest : string → string → list byte → result Request;
  Do : Request → option string * result Response
}.

End http.

(** ** Writers and connections *)
Module io.

(** The operations a connection has been asked to perform, in order. *)
Inductive op :=
| OpWrite (b : list byte)
| OpWritev (bufs : list (list byte))
| OpClose.

Record Conn := mkConn {
  (** whether the dynamic type implements [net]'s unexported
      [buffersWriter] (the connection types of package [net] do; pipes
      and other wrappers do not) *)
  vectored : bool;
  (** what writing these bytes returns: [(n, err)] *)
  outcome : list byte → Z * option error;
  ops : list op
}.

Definition log (c : Conn) (o : op) : Conn :=
  mkConn (vectored c) (outcome c) (ops c ++ [o]).

(** [c.Write(b)] *)
Definition Write (c : Conn) (b : list byte) : Conn * (Z * option error) :=
  (log c (OpWrite b), outcome c b).

(** [c.Close()] *)
Definition Close (c : Conn) : Conn := log c OpClose.

(** The fallback loop of [net.Buffers.WriteTo]: one [Write] per buffer,
    stopping at the first error. *)
Fixpoint WriteEach (c : Conn) (v : list (list byte)) (n : Z)
  : Conn * (Z * option error) :=
  match v with
  | [] => (c, (n, None))
  | b :: rest =>
      let '(c1, (nb, err)) := Write c b in
      match err with
      | Some e => (c1, (n + nb, Some e))
      | None => WriteEach c1 rest (n + nb)
      end
  end.

(** [net.Buffers.WriteTo(c)]: one [writev] if [c] is a [buffersWriter],
    otherwise a [Write] per buffer. *)
Definition Buffers_WriteTo (v : list (list byte)) (c : Conn)
  : Conn * (Z * option error) :=
  if vectored c then (log c (OpWritev v), outcome c (concat v))
  else WriteEach c v 0.

(** *** The read side of a connection

    What arrives, in the order it arrives: segments of data, or a failure
    (such as the connection having been closed).  After the last arrival
    every read reports [EOF]. *)
Inductive arrival :=
| Data (b : list byte)
| Fail (e : error).

Definition Reader := list arrival.

Definition EOF : error := LibError "EOF".

(** [c.Read(buf)] with [len(buf) = k]: at most [k] bytes of the segment
    at the head; what does not fit stays for the next read.  A read into
    an empty buffer returns [(0, nil)] at once. *)
Definition Read (r : Reader) (k : nat) : Reader * (list byte * option error) :=
  if bool_decide (k = 0%nat) then (r, ([], None))
  else
    match r with
    | [] => ([], ([], Some EOF))
    | Data b :: rest =>
        if bool_decide (length b ≤ k)%nat then (rest, (b, None))
        else (Data (drop k b) :: rest, (take k b, None))
    | Fail e :: rest => (rest, ([], Some e))
    end.

End io.

(** ** What a call [Query(q)] leaves behind

    The caller's buffer [q] as it is after the call, and the two results
    [([]byte, error)]; a nil slice and a nil error are [None]. *)
Record outcome := mkOutcome {
  q_after : list byte;
  response : option (list byte);
  err : option error
}.

(** ** The first transport ([src/tunnel/intra/doh.go]) *)
Module Doh.
Import net slices.

Record transport := mkTransport {
  url : string;
  port : Z;
  addrs : list IP;          (* server addresses in preference order *)
  client : http.Client
}.

Definition mimetype : string := "application/dns-message".

Definition Query (t : transport) (q : list byte) : outcome :=
  if bool_decide (length q < 2)%nat then
    mkOutcome q None
      (Some (Errorf "Query length is %d" [ArgInt (Z.of_nat (length q))]))
  else
    let id0 := index q 0 in
    let id1 := index q 1 in
    (* Zero out the query ID. *)
    let q := set01 q x00 x00 in
    match http.NewRequest (client t) "POST" (url t) q with
    | Err e => mkOutcome q None (Some e)
    | Ok req =>
        let req := http.Header_Set req "Content-Type" mimetype in
        let req := http.Header_Set req "Accept" mimetype in
        let req := http.Header_Set req "User-Agent" "Intra" in
        match (http.Do (client t) req).2 with
        | Err e => mkOutcome q None (Some e)
        | Ok response =>
            if bool_decide (http.StatusCode response ≠ 200) then
              mkOutcome q None
                (Some (Errorf (http.Status response) []))
            else
              let '(ret, err) := http.ReadAll response in
              (* Restore the query ID. *)
              let q := set01 q id0 id1 in
              let ret :=
                if bool_decide (2 ≤ length ret)%nat then set01 ret id0 id1
                else ret in
              mkOutcome q (Some ret) err
        end
    end.

(** [forwardQuery]: the caller's view of [q] and of the connection. *)
Definition forwardQuery (t : transport) (q : list byte) (c : io.Conn)
  : list byte * io.Conn :=
  let o := Query t q in
  match err o with
  | Some _ => (q_after o, io.Close c)
  | None =>
      let resp := default [] (response o) in
      let rlen := Z.of_nat (length resp) in
      if bool_decide (rlen > MaxUint16) then (q_after o, io.Close c)
      else
        let rlbuf := PutUint16 (make 2) (uint16 rlen) in
        let '(c1, (n, err)) := io.Buffers_WriteTo [rlbuf; resp] c in
        if bool_decide (is_Some err ∨ n ≠ rlen + 2)
        then (q_after o, io.Close c1)
        else (q_after o, c1)
  end.

(** [preferAddr(addrs, i)] on the stored list [t_addrs]; [None] is a
    run-time panic (index or slice bound out of range). *)
Definition preferAddr (t_addrs addrs : list IP) (i : nat)
  : option (list IP) :=
  if bool_decide (i = 0%nat) then Some t_addrs
  else
    a ← addrs !! i;
    guard (0 < length t_addrs)%nat;;
    let t1 := <[0%nat := a]> t_addrs in
    guard (i + 1 ≤ length t1)%nat;;
    let t2 := copy_range t1 1 (i + 1) (take i addrs) in
    guard (i + 1 ≤ length addrs)%nat;;
    Some (copy_at t2 (i + 1) (drop (i + 1) addrs)).

Section Dial.
(** [DialWithSplitRetry(network, &net.TCPAddr{IP, Port}, nil)]; a
    connection is known by the address it reached. *)
Variable DialWithSplitRetry : IP → Z → result IP.

(** The loop [for i, addr := range addrs] from index [i] on, with the
    [conn, err] of the iterations so far; returns the stored list and
    [(conn, err)]. *)
Fixpoint dial_from (t_port : Z) (t_addrs addrs : list IP) (i : nat)
  (rest : list IP) (last : option IP * option error)
  : option (list IP * (option IP * option error)) :=
  match rest with
  | [] => Some (t_addrs, last)
  | addr :: rest' =>
      match DialWithSplitRetry addr t_port with
      | Ok conn =>
          t' ← preferAddr t_addrs addrs i;
          Some (t', (Some conn, None))
      | Err e =>
          dial_from t_port t_addrs addrs (S i) rest' (None, Some e)
      end
  end.

(** [dial]: [addrs := t.getAddrs()] is a copy of the stored list. *)
Definition dial (t : transport)
  : option (list IP * (option IP * option error)) :=
  let addrs := addrs t in
  dial_from (port t) (Doh.addrs t) addrs 0 addrs (None, None).
End Dial.

Section Construct.
(** [url.Parse] (scheme, hostname, port), [strconv.Atoi], and
    [net.LookupIP] with its error dropped. *)
Variable url_Parse : string → result (string * string * string).
Variable Atoi : string → result Z.
Variable LookupIP : string → list IP.

(** [t.addAddrs(hostname)] *)
Definition addAddrs (t_addrs : list IP) (hostname : string) : list IP :=
  t_addrs ++ LookupIP hostname.

Definition NewDoHTransport (cl : http.Client) (rawurl : string)
  (addrs : list string) : result transport :=
  parsedurl ← url_Parse rawurl;
  let '(Scheme, Hostname, Port) := parsedurl in
  if bool_decide (Scheme ≠ "https") then
    Err (Errorf "Bad scheme: %s" [ArgStr Scheme])
  else
    port ← (if bool_decide (0 < String.length Port)%nat
            then Atoi Port else Ok 443);
    let t_addrs := addAddrs [] Hostname in
    let t_addrs := fold_left addAddrs addrs t_addrs in
    if bool_decide (length t_addrs = 0%nat) then
      Err (Errorf "No IP addresses for %s" [ArgStr Hostname])
    else Ok (mkTransport rawurl port t_addrs cl).
End Construct.

End Doh.

(** ** The status-code transport ([src/unnamed/part_002]) *)
Module DohStatus.
Import net slices.

Definition Complete : Z := 0.
Definition SendFailed : Z := 1.
Definition HTTPError : Z := 2.
Definition BadQuery : Z := 3.
Definition BadResponse : Z := 4.
Definition InternalError : Z := 5.
Definition Canceled : Z := 6.

(** [DNSSummary] without its two clock readings ([Timestamp], [Latency]). *)
Record DNSSummary := mkSummary {
  Query_ : list byte;
  Response : option (list byte);
  Server : string;
  Status : Z
}.

Record transport := mkTransport {
  url : string;
  port : Z;
  addrs : list IP;
  client : http.Client;
  listener : bool           (* [t.listener != nil] *)
}.

(** [addAddrs], [getAddrs], [preferAddr] and [dial] have the text of
    [doh.go]. *)
Definition preferAddr := Doh.preferAddr.
Definition addAddrs := Doh.addAddrs.

Definition mimetype : string := "application/dns-message".

(** [doQuery]: the named results [(response, status, server, err)] and
    the caller's [q]. *)
Definition doQuery (t : transport) (q : list byte)
  : outcome * (Z * string) :=
  if bool_decide (length q < 2)%nat then
    (mkOutcome q None
       (Some (Errorf "Query length is %d" [ArgInt (Z.of_nat (length q))])),
     (BadQuery, ""))
  else
    let id0 := index q 0 in
    let id1 := index q 1 in
    let q := set01 q x00 x00 in
    match http.NewRequest (client t) "POST" (url t) q with
    | Err e => (mkOutcome q None (Some e), (InternalError, ""))
    | Ok req =>
        let req := http.Header_Set req "Content-Type" mimetype in
        let req := http.Header_Set req "Accept" mimetype in
        let req := http.Header_Set req "User-Agent" "Intra" in
        let '(gotConn, res) := http.Do (client t) req in
        let server := default "" gotConn in
        match res with
        | Err e => (mkOutcome q None (Some e), (SendFailed, server))
        | Ok httpResponse =>
            if bool_decide (http.StatusCode httpResponse ≠ 200) then
              (* [err] is the nil that [Do] returned *)
              (mkOutcome q None None, (HTTPError, server))
            else
              let '(response, err) := http.ReadAll httpResponse in
              let q := set01 q id0 id1 in
              let response :=
                if bool_decide (2 ≤ length response)%nat
                then set01 response id0 id1 else response in
              (mkOutcome q (Some response) err, (Complete, server))
        end
    end.

(** [Query]: the outcome and the summary handed to the listener. *)
Definition Query (t : transport) (q : list byte)
  : outcome * option DNSSummary :=
  let '(o, (status, server)) := doQuery t q in
  (o, if listener t
      then Some (mkSummary (q_after o) (response o) server status)
      else None).

Definition forwardQuery (t : transport) (q : list byte) (c : io.Conn)
  : list byte * io.Conn :=
  let o := (Query t q).1 in
  match err o with
  | Some _ => (q_after o, io.Close c)
  | None =>
      let resp := default [] (response o) in
      let rlen := Z.of_nat (length resp) in
      if bool_decide (rlen > MaxUint16) then (q_after o, io.Close c)
      else
        let rlbuf := PutUint16 (make 2) (uint16 rlen) in
        let '(c1, (n, err)) := io.Buffers_WriteTo [rlbuf; resp] c in
        if bool_decide (is_Some err ∨ n ≠ rlen + 2)
        then (q_after o, io.Close c1)
        else (q_after o, c1)
  end.

End DohStatus.

(** ** The classified-error transport ([src/unnamed/part_003]) *)
Module DohClassified.
Import net slices.

Definition Complete : Z := 0.
Definition SendFailed : Z := 1.
Definition HTTPError : Z := 2.
Definition BadQuery : Z := 3.
Definition BadResponse : Z := 4.
Definition InternalError : Z := 5.

(** [DNSSummary] without its clock reading ([Latency]). *)
Record DNSSummary := mkSummary {
  Query_ : list byte;
  Response : option (list byte);
  Server : string;
  Status : Z
}.

(** [DNSTransport]: the interface the forwarder is written against. *)
Class DNSTransport (T : Type) := {
  Query : T → list byte → outcome;
  GetURL : T → string
}.

Record transport := mkTransport {
  url : string;
  domain : string;
  port : Z;
  ips : list IP;            (* server addresses in preference order *)
  client : http.Client;
  listener : bool           (* [t.listener != nil] *)
}.

(** The inner loop of [add]: [for _, old := range dest]. *)
Definition found (dest : list IP) (new : IP) : bool :=
  existsb (fun old => IP_Equal old new) dest.

(** [add(dest, src)]: append any new IPs from [src] onto [dest]. *)
Fixpoint add (dest src : list IP) : list IP :=
  match src with
  | [] => dest
  | new :: rest =>
      if found dest new then add dest rest
      else add (dest ++ [new]) rest
  end.

Section Construct.
Variable url_Parse : string → result (string * string * string).
Variable Atoi : string → result Z.
Variable LookupIP : string → list IP.

Definition NewDoHTransport (cl : http.Client) (rawurl : string)
  (addrs : list string) (listener : bool) : result transport :=
  parsedurl ← url_Parse rawurl;
  let '(Scheme, Hostname, Port) := parsedurl in
  if bool_decide (Scheme ≠ "https") then
    Err (Errorf "Bad scheme: %s" [ArgStr Scheme])
  else
    port ← (if bool_decide (0 < String.length Port)%nat
            then Atoi Port else Ok 443);
    let t_ips := LookupIP Hostname in
    let t_ips :=
      fold_left (λ t_ips addr, add t_ips (LookupIP addr)) addrs t_ips in
    if bool_decide (length t_ips = 0%nat) then
      Err (Errorf "No IP addresses for %s" [ArgStr Hostname])
    else Ok (mkTransport rawurl Hostname port t_ips cl listener).
End Construct.

Definition mimetype : string := "application/dns-message".

(** [doQuery]: the named results [(response, server, qerr)] and the
    caller's [q].  The [err] that [ReadAll] returns is a local variable
    and is dropped. *)
Definition doQuery (t : transport) (q : list byte) : outcome * string :=
  if bool_decide (length q < 2)%nat then
    (mkOutcome q None
       (Some (QueryError BadQuery
          (Errorf "Query length is %d" [ArgInt (Z.of_nat (length q))]))),
     "")
  else
    let id0 := index q 0 in
    let id1 := index q 1 in
    let q := set01 q x00 x00 in
    match http.NewRequest (client t) "POST" (url t) q with
    | Err e => (mkOutcome q None (Some (QueryError InternalError e)), "")
    | Ok req =>
        let req := http.Header_Set req "Content-Type" mimetype in
        let req := http.Header_Set req "Accept" mimetype in
        let req := http.Header_Set req "User-Agent" "Intra" in
        let '(gotConn, res) := http.Do (client t) req in
        let server := default "" gotConn in
        match res with
        | Err e =>
            (mkOutcome q None (Some (QueryError SendFailed e)), server)
        | Ok httpResponse =>
            if bool_decide (http.StatusCode httpResponse ≠ 200) then
              (mkOutcome q None
                 (Some (QueryError HTTPError
                    (Errorf "HTTP request failed: %d"
                       [ArgInt (http.StatusCode httpResponse)]))),
               server)
            else
              let '(response, _) := http.ReadAll httpResponse in
              let q := set01 q id0 id1 in
              let response :=
                if bool_decide (2 ≤ length response)%nat
                then set01 response id0 id1 else response in
              (mkOutcome q (Some response) None, server)
        end
    end.

(** [errors.As(err, &qerr) && qerr != nil], then [qerr.status]. *)
Definition status_of (err : option error) : Z :=
  match err with
  | Some (QueryError status _) => status
  | _ => Complete
  end.

(** [transport.Query]: the outcome and the summary handed to the
    listener. *)
Definition transport_Query (t : transport) (q : list byte)
  : outcome * option DNSSummary :=
  let '(o, server) := doQuery t q in
  (o, if listener t
      then Some (mkSummary (q_after o) (response o) server
                   (status_of (err o)))
      else None).

#[global] Instance transport_DNSTransport : DNSTransport transport := {
  Query t q := (transport_Query t q).1;
  GetURL t := url t
}.

(** The [fakeTransport] of the tests: it answers with [response], or
    fails with [err] if that is set. *)
Record fakeTransport := mkFake {
  fake_response : list byte;
  fake_err : option error
}.

#[global] Instance fake_DNSTransport : DNSTransport fakeTransport := {
  Query t q :=
    match fake_err t with
    | Some e => mkOutcome q None (Some e)
    | None => mkOutcome q (Some (fake_response t)) None
    end;
  GetURL _ := "fake"
}.

(** [forwardQuery(t, q, c)]: the caller's [q], the writer, and the error
    returned. *)
Definition forwardQuery `{DNSTransport T} (t : T) (q : list byte)
  (c : io.Conn) : list byte * io.Conn * option error :=
  let o := Query t q in
  match err o with
  | Some e => (q_after o, c, Some e)
  | None =>
      let resp := default [] (response o) in
      let rlen := Z.of_nat (length resp) in
      if bool_decide (rlen > MaxUint16) then
        (q_after o, c, Some (Errorf "Oversize response: %d" [ArgInt rlen]))
      else
        let rlbuf := make (length resp + 2) in
        let rlbuf := PutUint16 rlbuf (uint16 rlen) in
        let rlbuf := copy_at rlbuf 2 resp in
        let '(c1, (n, err)) := io.Write c rlbuf in
        match err with
        | Some e => (q_after o, c1, Some e)
        | None =>
            if bool_decide (n ≠ Z.of_nat (length rlbuf)) then
              (q_after o, c1,
               Some (Errorf "Incomplete response write: %d < %d"
                       [ArgInt n; ArgInt (Z.of_nat (length rlbuf))]))
            else (q_after o, c1, None)
        end
  end.


Section Dial.
(** [net.SplitHostPort] (its host result, errors dropped),
    [net.ResolveTCPAddr] and [DialWithSplitRetry]; a connection is known
    by the address it reached. *)
Variable SplitHostPort : string → string.
Variable ResolveTCPAddr : string → string → result (IP * Z).
Variable DialWithSplitRetry : IP → Z → result IP.

(** The loop [for _, ip := range t.ips] of [dial], with the [err] of the
    iterations so far. *)
Fixpoint dial_ips (t_port : Z) (t_ips : list IP) (err : option error)
  : option IP * option error :=
  match t_ips with
  | [] => (None, err)
  | ip :: rest =>
      match DialWithSplitRetry ip t_port with
      | Ok conn => (Some conn, None)
      | Err e => dial_ips t_port rest (Some e)
      end
  end.

(** [dial(network, addr)]: [(conn, err)]. *)
Definition dial (t : transport) (network addr : string)
  : option IP * option error :=
  let domain_ := SplitHostPort addr in
  if bool_decide (domain t ≠ domain_) then
    match ResolveTCPAddr network addr with
    | Err e => (None, Some e)
    | Ok (ip, tcpport) =>
        match DialWithSplitRetry ip tcpport with
        | Ok conn => (Some conn, None)
        | Err e => (None, Some e)
        end
    end
  else dial_ips (port t) (ips t) None.
End Dial.

(** [Accept]: the loop that reads length-prefixed queries.  The result is
    the queries handed to [go forwardQueryAndCheck(t, q, c)], in order,
    and what is left to read when the loop returns (and the deferred
    [c.Close()] runs).  Every iteration that goes on consumes the two
    bytes of a length; [fuel] bounds the iterations and [None] means it
    ran out. *)
Fixpoint Accept (fuel : nat) (r : io.Reader)
  : option (list (list byte) * io.Reader) :=
  match fuel with
  | O => None
  | S fuel' =>
      let '(r1, (qlbuf, err)) := io.Read r 2 in
      match err with
      | Some _ => Some ([], r1)
      | None =>
          if bool_decide (length qlbuf ≠ 2%nat) then Some ([], r1)
          else
            let qlen := Uint16 qlbuf in
            let '(r2, (q, err)) := io.Read r1 (Z.to_nat qlen) in
            if bool_decide (uint16 (Z.of_nat (length q)) ≠ qlen
                            ∨ is_Some err)
            then Some ([], r2)
            else
              rest ← Accept fuel' r2;
              Some (q :: rest.1, rest.2)
      end
  end.

End DohClassified.

(** ** Concrete environments

    Stand-ins for the resolver, the parsers and the HTTP server, used to
    run the definitions above on the inputs of the tests and of the
    scenarios. *)
Module Fixtures.
Import net.

Definition ip_8888 : IP := IPv4 x08 x08 x08 x08.
Definition ip_8844 : IP := IPv4 x08 x08 x04 x04.
Definition ip_1111 : IP := IPv4 x01 x01 x01 x01.

(** [net.ParseIP] on the strings used below. *)
Definition ParseIP (s : string) : option IP :=
  if bool_decide (s = "8.8.8.8") then Some ip_8888
  else if bool_decide (s = "8.8.4.4") then Some ip_8844
  else if bool_decide (s = "1.1.1.1") then Some ip_1111
  else None.

(** A resolver that knows [dns.google] and maps an IP literal to
    itself, as [net.LookupIP] does. *)
Definition LookupIP (hostname : string) : list IP :=
  if bool_decide (hostname = "dns.google") then [ip_8888; ip_8844]
  else option_list (ParseIP hostname).

(** A resolver whose answer for [dns.google] repeats an address. *)
Definition LookupIP_repeating (hostname : string) : list IP :=
  if bool_decide (hostname = "dns.google") then [ip_8888; ip_8888]
  else option_list (ParseIP hostname).

(** [url.Parse] on the URLs used below: scheme, hostname, port. *)
Definition url_Parse (rawurl : string) : result (string * string * string) :=
  if bool_decide (rawurl = "https://dns.google/dns-query")
  then Ok ("https", "dns.google", "")
  else if bool_decide (rawurl = "ftp://www.example.com")
  then Ok ("ftp", "www.example.com", "")
  else Err (LibError "parse").

Definition Atoi (s : string) : result Z :=
  if bool_decide (s = "443") then Ok 443 else Err (LibError "Atoi").

(** [http.NewRequest] succeeds on a well-formed URL. *)
Definition NewRequest (method url : string) (body : list byte)
  : result http.Request :=
  Ok (http.mkRequest method url [] body).

(** A server that answers 200 with [body]. *)
Definition answering (body : list byte) : http.Client :=
  http.mkClient NewRequest
    (λ _, (Some "8.8.8.8", Ok (http.mkResponse 200 "200 OK" (body, None)))).

(** A server that cannot be reached. *)
Definition unreachable : http.Client :=
  http.mkClient NewRequest (λ _, (None, Err (LibError "dial tcp: timeout"))).

(** A server that answers 503. *)
Definition refusing : http.Client :=
  http.mkClient NewRequest
    (λ _, (Some "8.8.8.8",
           Ok (http.mkResponse 503 "503 Service Unavailable" ([], None)))).

(** A client whose request builder fails. *)
Definition unbuildable : http.Client :=
  http.mkClient (λ _ _ _, Err (LibError "net/url: invalid control character in URL"))
    (λ _, (None, Err (LibError "unused"))).

(** The [fakeConn] of the tests: a pipe, which accepts every write in
    full and is not one of package [net]'s connection types. *)
Definition fakeConn : io.Conn :=
  io.mkConn false (λ b, (Z.of_nat (length b), None)) [].

(** A TCP connection of package [net]. *)
Definition tcpConn : io.Conn :=
  io.mkConn true (λ b, (Z.of_nat (length b), None)) [].

End Fixtures.

(** ** What the specification speaks of

    The predicates and reference functions of the data model, written from
    its words, against which the code is compared below. *)



(** Every call of [Get] that has returned, returned what the map holds
    for its hostname. *)
Definition returned_installed (w : IPMap.world) : Prop :=
  ∀ tid hostname s,
    IPMap.calls w !! tid = Some (IPMap.Returned hostname s) →
    IPMap.m (IPMap.shared w) !! hostname = Some s.

(** The response of a successful query: the body, with its first two
    bytes replaced by those of the query if it has them. *)
Definition repaired (q body resp : list byte) : Prop :=
  length resp = length body ∧
  ((2 ≤ length resp)%nat →
   take 2 resp = take 2 q ∧ drop 2 resp = drop 2 body) ∧
  ((length resp < 2)%nat → resp = body).

(** [addrs[i]] in front, the others behind it in their order. *)
Definition promoted (addrs : list net.IP) (i : nat) (a : net.IP)
  : list net.IP :=
  a :: take i addrs ++ drop (S i) addrs.

(** No IP appears twice: two different positions never hold IP-equal
    addresses. *)
Definition no_IP_twice (l : list net.IP) : Prop :=
  ∀ i j a b, i ≠ j → l !! i = Some a → l !! j = Some b →
             net.IP_Equal a b = false.

(** Deduplication under IP equality that keeps the first occurrence of
    every address, in the order of insertion. *)
Definition keep_new (acc : list net.IP) (x : net.IP) : list net.IP :=
  if existsb (λ y, net.IP_Equal y x) acc then acc else acc ++ [x].

Definition dedupIP (l : list net.IP) : list net.IP :=
  fold_left keep_new l [].

(** A DNS-over-TCP frame: the 16-bit big-endian length, then the
    message. *)
Definition frame (msg : list byte) : list byte :=
  slices.byte_of_Z (Z.of_nat (length msg) / 256)
  :: slices.byte_of_Z (Z.of_nat (length msg)) :: msg.

(** The bytes a reader still has to deliver. *)
Definition pending (r : io.Reader) : nat :=
  sum_list (map (λ a, match a with
                      | io.Data b => length b
                      | io.Fail _ => 0%nat
                      end) r).

(** The three headers every query is sent with. *)
Definition with_dns_headers (req : http.Request) : http.Request :=
  http.Header_Set
    (http.Header_Set
       (http.Header_Set req "Content-Type" "application/dns-message")
       "Accept" "application/dns-message")
    "User-Agent" "Intra".

(** The request a query [q] is sent as: a POST to the URL of the
    transport, with the three headers, whose body is [q] with a zero ID. *)
Definition wire_request (url : string) (q : list byte) : http.Request :=
  http.mkRequest "POST" url
    [("Content-Type", "application/dns-message");
     ("Accept", "application/dns-message");
     ("User-Agent", "Intra")]
    (x00 :: x00 :: drop 2 q).

(** ** Invariants and measures used in the proofs *)

(** The pointers of the map and of the calls that hold a set they built:
    all allocated, the held ones neither installed nor shared between two
    calls, and no set installed under two hostnames. *)
Definition map_sound (w : IPMap.world) : Prop :=
  (∀ h s, IPMap.m (IPMap.shared w) !! h = Some s →
          (s < length (IPMap.heap (IPMap.shared w)))%nat) ∧
  (∀ tid h s, IPMap.calls w !! tid = Some (IPMap.AtLock h s) →
              (s < length (IPMap.heap (IPMap.shared w)))%nat ∧
              ∀ h', IPMap.m (IPMap.shared w) !! h' ≠ Some s) ∧
  (∀ tid1 tid2 h1 h2 s,
     IPMap.calls w !! tid1 = Some (IPMap.AtLock h1 s) →
     IPMap.calls w !! tid2 = Some (IPMap.AtLock h2 s) → tid1 = tid2) ∧
  (∀ h1 h2 s, IPMap.m (IPMap.shared w) !! h1 = Some s →
              IPMap.m (IPMap.shared w) !! h2 = Some s → h1 = h2).

(** How many critical sections a call of [Get] still has before it. *)
Definition steps_left (c : IPMap.call) : nat :=
  match c with
  | IPMap.AtRLock _ => 3
  | IPMap.AtBuild _ => 2
  | IPMap.AtLock _ _ => 1
  | IPMap.Returned _ _ => 0
  end.

Definition hostname_of (c : IPMap.call) : string :=
  match c with
  | IPMap.AtRLock h | IPMap.AtBuild h
  | IPMap.AtLock h _ | IPMap.Returned h _ => h
  end.

(** How often the scheduler lets call [tid] run in [es]. *)
Fixpoint runs_of (tid : nat) (es : list IPMap.event) : nat :=
  match es with
  | [] => 0
  | IPMap.Run t _ :: rest =>
      ((if decide (t = tid) then 1 else 0) + runs_of tid rest)%nat
  | _ :: rest => runs_of tid rest
  end.

(** * Properties *)

(** ** IP sets *)

Section IPSetFacts.
Import net.


Lemma IPMap_has_app_l (l1 l2 : list IP) (ip : IP) :
  IPMap.has l1 ip = true → IPMap.has (l1 ++ l2) ip = true.
Proof.
  unfold IPMap.has. rewrite existsb_app. intros ->. done.
Qed.

Lemma IntraIPSet_union_app (s_ips resolved : list IP) :
  ∃ new, IntraIPSet.union s_ips resolved = s_ips ++ new.
Proof.
  revert s_ips. induction resolved as [|ip rest IH]; intros s_ips; simpl.
  - exists []. by rewrite app_nil_r.
  - destruct (IntraIPSet.has s_ips ip).
    + apply IH.
    + destruct (IH (s_ips ++ [ip])) as [new ->].
      exists (ip :: new). by rewrite <- app_assoc.
Qed.

(** [Empty] of [package ipmap] is right. *)
Lemma IPMap_Empty_iff (s : IPMap.IPSet) :
  IPMap.Empty s = true ↔ IPMap.ips s = [].
Proof.
  unfold IPMap.Empty. rewrite bool_decide_eq_true.
  destruct (IPMap.ips s); simpl; split; intros; done.
Qed.

(** [empty] in [package intra] is the negation of what its name says. *)
Lemma IntraIPSet_empty_iff (s : IntraIPSet.ipSet) :
  IntraIPSet.empty s = true ↔ IntraIPSet.ips s ≠ [].
Proof.
  unfold IntraIPSet.empty. rewrite bool_decide_eq_true.
  destruct (IntraIPSet.ips s); simpl; split; intros; try done; lia.
Qed.
End IPSetFacts.




(** C3: [empty] of [package intra] ([src/unnamed/part_004]) returns
    [len(s.ips) > 0]: false on the set without addresses, true on a set
    that has one. *)
Theorem intra_empty_is_inverted :
  IntraIPSet.empty (IntraIPSet.mkIpSet [] None) = false ∧
  IntraIPSet.empty (IntraIPSet.mkIpSet [Fixtures.ip_8888] None) = true.
Proof. split; vm_compute; reflexivity. Qed.

(** C10: [Confirm] and [Disconfirm] (and [confirm], [disconfirm]) leave the
    sequence of IPs as it was, whatever the set and the argument. *)
Theorem confirm_disconfirm_keep_ips (ParseIP : string → option net.IP) :
  (∀ s ipstr, IPMap.ips (IPMap.Confirm ParseIP s ipstr) = IPMap.ips s) ∧
  (∀ s ip, IPMap.ips (IPMap.Disconfirm s ip) = IPMap.ips s) ∧
  (∀ s ipstr,
     IntraIPSet.ips (IntraIPSet.confirm ParseIP s ipstr) = IntraIPSet.ips s) ∧
  (∀ s ip, IntraIPSet.ips (IntraIPSet.disconfirm s ip) = IntraIPSet.ips s).
Proof.
  repeat split; intros s x.
  - unfold IPMap.Confirm. by destruct (ParseIP x).
  - unfold IPMap.Disconfirm. by destruct (net.IP_Equal _ _).
  - unfold IntraIPSet.confirm. by destruct (ParseIP x).
  - unfold IntraIPSet.disconfirm. by destruct (net.IP_Equal _ _).
Qed.

(** ** The hostname map *)

Section GetFacts.
Import IPMap.

Lemma step_call_keeps resolved mp c mp' c' hostname s :
  step_call resolved mp c = (mp', c') →
  m mp !! hostname = Some s → m mp' !! hostname = Some s.
Proof.
  destruct c as [h|h|h p|h p]; simpl.
  - destruct (m mp !! h); intros [= <- _]; done.
  - intros [= <- _]; done.
  - destruct (m mp !! h) eqn:E; intros [= <- _]; simpl; [done|].
    intros Hs. destruct (decide (h = hostname)) as [->|Hne].
    + congruence.
    + by rewrite lookup_insert_ne.
  - intros [= <- _]; done.
Qed.

Lemma step_call_returns resolved mp c mp' hostname s :
  step_call resolved mp c = (mp', Returned hostname s) →
  c = Returned hostname s ∨ m mp' !! hostname = Some s.
Proof.
  destruct c as [h|h|h p|h p]; simpl.
  - destruct (m mp !! h) eqn:E; intros [= <- <- <-]; by right.
  - intros [= _ ?]; done.
  - destruct (m mp !! h) eqn:E; intros [= <- <- <-]; right; simpl.
    + done.
    + by rewrite lookup_insert_eq.
  - intros [= <- <- <-]; by left.
Qed.

Lemma exec_keeps w e hostname s :
  m (shared w) !! hostname = Some s →
  m (shared (exec w e)) !! hostname = Some s.
Proof.
  destruct e as [h|tid resolved|p f]; simpl; [done| |].
  - destruct (calls w !! tid) as [c|]; [|done].
    destruct (step_call resolved (shared w) c) as [mp c'] eqn:E; simpl.
    by eapply step_call_keeps.
  - destruct (heap (shared w) !! p); done.
Qed.

Lemma run_keeps es w hostname s :
  m (shared w) !! hostname = Some s →
  m (shared (run w es)) !! hostname = Some s.
Proof.
  revert w. induction es as [|e es IH]; intros w Hs; simpl; [done|].
  apply IH. by apply exec_keeps.
Qed.

Lemma exec_returned_installed w e :
  returned_installed w → returned_installed (exec w e).
Proof.
  intros Hinv tid hostname s.
  destruct e as [h|tid' resolved|p f]; simpl.
  - intros Hl. apply lookup_app_Some in Hl as [Hl|[_ Hl]].
    + by eapply Hinv.
    + destruct (tid - length (calls w))%nat; simpl in Hl; done.
  - destruct (calls w !! tid') as [c|] eqn:Ec; [|by apply Hinv].
    destruct (step_call resolved (shared w) c) as [mp c'] eqn:E; simpl.
    intros Hl. destruct (decide (tid' = tid)) as [->|Hne].
    + rewrite list_lookup_insert_eq in Hl
        by (by eapply lookup_lt_Some).
      injection Hl as ->.
      apply step_call_returns in E as Hr. destruct Hr as [->|Hr]; [|done].
      eapply step_call_keeps; [done|]. by eapply Hinv.
    + rewrite list_lookup_insert_ne in Hl by done.
      eapply step_call_keeps; [done|]. by eapply Hinv.
  - destruct (heap (shared w) !! p); simpl; apply Hinv.
Qed.

Lemma run_returned_installed es w :
  returned_installed w → returned_installed (run w es).
Proof.
  revert w. induction es as [|e es IH]; intros w Hinv; simpl; [done|].
  apply IH. by apply exec_returned_installed.
Qed.

Lemma run_app w es1 es2 : run w (es1 ++ es2) = run (run w es1) es2.
Proof. unfold run. by rewrite fold_left_app. Qed.

(** A call that is scheduled three times has returned. *)
Lemma step_call_thrice r1 r2 r3 mp hostname :
  ∃ mp' s,
    (let '(mp1, c1) := step_call r1 mp (AtRLock hostname) in
     let '(mp2, c2) := step_call r2 mp1 c1 in
     step_call r3 mp2 c2) = (mp', Returned hostname s).
Proof.
  simpl. destruct (m mp !! hostname) as [s|] eqn:E; simpl.
  - exists mp, s. done.
  - rewrite E. eauto.
Qed.

(** [get] of [package intra]: the entries of the map stay. *)
Lemma intra_get_keeps mp h resolved hostname s :
  IntraIPSet.m mp !! hostname = Some s →
  IntraIPSet.m (IntraIPSet.get mp h resolved).2 !! hostname = Some s.
Proof.
  unfold IntraIPSet.get. destruct (IntraIPSet.m mp !! h) eqn:E; simpl.
  - done.
  - intros Hs. destruct (decide (h = hostname)) as [->|Hne].
    + congruence.
    + by rewrite lookup_insert_ne.
Qed.

Lemma intra_get_installed mp h resolved :
  IntraIPSet.m (IntraIPSet.get mp h resolved).2 !! h
    = Some (IntraIPSet.get mp h resolved).1.
Proof.
  unfold IntraIPSet.get. destruct (IntraIPSet.m mp !! h) eqn:E; simpl.
  - done.
  - by rewrite lookup_insert_eq.
Qed.

Lemma intra_gets_keeps hs mp hostname s :
  IntraIPSet.m mp !! hostname = Some s →
  IntraIPSet.m (IntraIPSet.gets mp hs).2 !! hostname = Some s.
Proof.
  revert mp. induction hs as [|[h resolved] hs IH]; intros mp Hs; simpl.
  - done.
  - destruct (IntraIPSet.get mp h resolved) as [p mp1] eqn:E.
    specialize (IH mp1).
    destruct (IntraIPSet.gets mp1 hs) as [log mp2]; simpl in *.
    apply IH. pose proof (intra_get_keeps mp h resolved hostname s Hs) as K.
    by rewrite E in K.
Qed.

Lemma intra_gets_log hs mp i hostname s :
  (IntraIPSet.gets mp hs).1 !! i = Some (hostname, s) →
  IntraIPSet.m (IntraIPSet.gets mp hs).2 !! hostname = Some s.
Proof.
  revert mp i. induction hs as [|[h resolved] hs IH]; intros mp i; simpl.
  - done.
  - pose proof (intra_get_installed mp h resolved) as Hi.
    destruct (IntraIPSet.get mp h resolved) as [p mp1] eqn:E.
    pose proof (intra_gets_keeps hs mp1 h p) as Hk.
    specialize (IH mp1).
    destruct (IntraIPSet.gets mp1 hs) as [log mp2]; simpl in *.
    destruct i as [|i]; simpl.
    + intros [= <- <-]. by apply Hk.
    + apply IH.
Qed.
End GetFacts.

(** C7: in every interleaving of calls of [Get] (and of changes to the
    sets), once a call for a hostname has returned a set, a call for that
    hostname that has returned at any later point returned the same pointer,
    and what the map holds for a hostname is never replaced; the builder
    that loses the install race returns the installed set.  The same
    holds for the calls of [get] of [package intra], which run one after the
    other under the mutex. *)
Theorem get_returns_one_set_per_hostname :
  (∀ es1 es2 tid1 tid2 hostname s1 s2,
     IPMap.calls (IPMap.run IPMap.start es1) !! tid1
       = Some (IPMap.Returned hostname s1) →
     IPMap.calls (IPMap.run IPMap.start (es1 ++ es2)) !! tid2
       = Some (IPMap.Returned hostname s2) →
     s1 = s2) ∧
  (∀ es e hostname s,
     IPMap.m (IPMap.shared (IPMap.run IPMap.start es)) !! hostname = Some s →
     IPMap.m (IPMap.shared (IPMap.exec (IPMap.run IPMap.start es) e))
       !! hostname = Some s) ∧
  (∀ w resolved hostname s s2 mp c,
     IPMap.m (IPMap.shared w) !! hostname = Some s2 →
     IPMap.step_call resolved (IPMap.shared w) (IPMap.AtLock hostname s)
       = (mp, c) →
     mp = IPMap.shared w ∧ c = IPMap.Returned hostname s2) ∧
  (∀ mp hs i j hostname s1 s2,
     (IntraIPSet.gets mp hs).1 !! i = Some (hostname, s1) →
     (IntraIPSet.gets mp hs).1 !! j = Some (hostname, s2) →
     s1 = s2).
Proof.
  split; [|split; [|split]].
  - intros es1 es2 tid1 tid2 hostname s1 s2 H1 H2.
    assert (Hstart : returned_installed IPMap.start) by (intros [|?] ? ?; done).
    pose proof (run_returned_installed es1 _ Hstart _ _ _ H1) as Hm1.
    pose proof (run_returned_installed (es1 ++ es2) _ Hstart _ _ _ H2) as Hm2.
    rewrite run_app in Hm2.
    pose proof (run_keeps es2 _ _ _ Hm1) as Hm1'.
    congruence.
  - intros es e hostname s. apply exec_keeps.
  - intros w resolved hostname s s2 mp c Hs. simpl. rewrite Hs.
    by intros [= <- <-].
  - intros mp hs i j hostname s1 s2 H1 H2.
    apply intra_gets_log in H1. apply intra_gets_log in H2. congruence.
Qed.

(** Two calls for [example.com] race: both miss under the read lock, both
    build a set, call 1 installs first, call 0 finds it and drops its own;
    a third call comes later.  All three return pointer 1. *)
Lemma get_returns_one_set_per_hostname_witness :
  let race := [IPMap.Call "example.com"; IPMap.Call "example.com";
               IPMap.Run 0 []; IPMap.Run 1 [];
               IPMap.Run 0 [Fixtures.ip_8888]; IPMap.Run 1 [Fixtures.ip_8844];
               IPMap.Run 1 []; IPMap.Run 0 []] in
  let later := [IPMap.Call "example.com"; IPMap.Run 2 []] in
  IPMap.calls (IPMap.run IPMap.start race) !! 0%nat
    = Some (IPMap.Returned "example.com" 1%nat) ∧
  IPMap.calls (IPMap.run IPMap.start (race ++ later)) !! 2%nat
    = Some (IPMap.Returned "example.com" 1%nat) ∧
  1%nat = 1%nat.
Proof.
  cbv zeta.
  assert (H1 : IPMap.calls (IPMap.run IPMap.start
            [IPMap.Call "example.com"; IPMap.Call "example.com";
             IPMap.Run 0 []; IPMap.Run 1 [];
             IPMap.Run 0 [Fixtures.ip_8888]; IPMap.Run 1 [Fixtures.ip_8844];
             IPMap.Run 1 []; IPMap.Run 0 []]) !! 0%nat
          = Some (IPMap.Returned "example.com" 1%nat))
    by (vm_compute; reflexivity).
  assert (H2 : IPMap.calls (IPMap.run IPMap.start
            ([IPMap.Call "example.com"; IPMap.Call "example.com";
              IPMap.Run 0 []; IPMap.Run 1 [];
              IPMap.Run 0 [Fixtures.ip_8888]; IPMap.Run 1 [Fixtures.ip_8844];
              IPMap.Run 1 []; IPMap.Run 0 []]
             ++ [IPMap.Call "example.com"; IPMap.Run 2 []])) !! 2%nat
          = Some (IPMap.Returned "example.com" 1%nat))
    by (vm_compute; reflexivity).
  split; [exact H1|]. split; [exact H2|].
  exact (proj1 get_returns_one_set_per_hostname _ _ _ _ _ _ _ H1 H2).
Defined.

(** ** The query ID *)

Section QueryFacts.
Import slices.

Lemma set01_length (q : list byte) (a b : byte) :
  length (set01 q a b) = length q.
Proof. unfold set01. by rewrite !length_insert. Qed.

Lemma set01_restore (q : list byte) (a b : byte) :
  (2 ≤ length q)%nat →
  set01 (set01 q a b) (index q 0) (index q 1) = q.
Proof.
  destruct q as [|x [|y q]]; simpl; intros; try lia. reflexivity.
Qed.

Lemma set01_take_drop (r : list byte) (a b : byte) :
  (2 ≤ length r)%nat →
  take 2 (set01 r a b) = [a; b] ∧ drop 2 (set01 r a b) = drop 2 r.
Proof.
  destruct r as [|x [|y r]]; simpl; intros; try lia. done.
Qed.

Lemma take2_index (q : list byte) :
  (2 ≤ length q)%nat → take 2 q = [index q 0; index q 1].
Proof.
  destruct q as [|x [|y q]]; simpl; intros; try lia. reflexivity.
Qed.

Lemma repaired_patch (q body : list byte) :
  (2 ≤ length q)%nat →
  repaired q body
    (if bool_decide (2 ≤ length body)%nat
     then set01 body (index q 0) (index q 1) else body).
Proof.
  intros Hq. case_bool_decide as Hb.
  - split; [apply set01_length|]. rewrite set01_length. split.
    + intros _. rewrite (take2_index q Hq). by apply set01_take_drop.
    + lia.
  - split; [done|]. split; [lia|done].
Qed.

(** On the success path of [doQuery] the caller's buffer is as it was. *)
Lemma classified_success_restores (t : DohClassified.transport)
  (q : list byte) :
  (2 ≤ length q)%nat →
  err (DohClassified.doQuery t q).1 = None →
  q_after (DohClassified.doQuery t q).1 = q.
Proof.
  intros Hq. unfold DohClassified.doQuery.
  case_bool_decide; [lia|].
  destruct (http.NewRequest _ _ _ _) as [req|e]; [|done].
  destruct (http.Do _ _) as [gotConn [resp|e]]; [|done].
  case_bool_decide; [done|].
  destruct (http.ReadAll resp) as [body rerr]; simpl. intros _.
  by apply set01_restore.
Qed.

(** On every failure path of [doQuery] past the length check, the
    caller's buffer keeps the zeroed ID. *)
Lemma classified_failure_zeroes (t : DohClassified.transport)
  (q : list byte) :
  (2 ≤ length q)%nat →
  is_Some (err (DohClassified.doQuery t q).1) →
  q_after (DohClassified.doQuery t q).1 = set01 q x00 x00.
Proof.
  intros Hq. unfold DohClassified.doQuery.
  case_bool_decide; [lia|].
  destruct (http.NewRequest _ _ _ _) as [req|e]; [|done].
  destruct (http.Do _ _) as [gotConn [resp|e]]; [|done].
  case_bool_decide; [done|].
  destruct (http.ReadAll resp) as [body rerr]; simpl.
  intros [? [=]].
Qed.
End QueryFacts.

(** C1: the query [ab cd 01 00] comes back as [00 00 01 00] from a call
    that fails after the ID was zeroed: when the request cannot be built,
    when it cannot be sent, and when the server answers 503.  This is so
    in the three transports; the restore is only on the path that read a
    body. *)
Theorem query_id_left_zeroed_on_failure :
  let q := [xab; xcd; x01; x00] in
  let zeroed := [x00; x00; x01; x00] in
  let classified cl :=
    DohClassified.mkTransport "https://dns.google/dns-query" "dns.google"
      443 [Fixtures.ip_8888] cl false in
  let status cl :=
    DohStatus.mkTransport "https://dns.google/dns-query" 443
      [Fixtures.ip_8888] cl false in
  let first cl :=
    Doh.mkTransport "https://dns.google/dns-query" 443
      [Fixtures.ip_8888] cl in
  q_after (DohClassified.Query (classified Fixtures.unbuildable) q) = zeroed ∧
  q_after (DohClassified.Query (classified Fixtures.unreachable) q) = zeroed ∧
  q_after (DohClassified.Query (classified Fixtures.refusing) q) = zeroed ∧
  q_after (DohStatus.Query (status Fixtures.unreachable) q).1 = zeroed ∧
  q_after (DohStatus.Query (status Fixtures.refusing) q).1 = zeroed ∧
  q_after (Doh.Query (first Fixtures.unreachable) q) = zeroed ∧
  q_after (Doh.Query (first Fixtures.refusing) q) = zeroed ∧
  q_after (DohClassified.Query (classified (Fixtures.answering [x00; x00; x81]))
             q) = q.
Proof. cbv zeta. repeat split; vm_compute; reflexivity. Qed.

(** C6: a successful [Query(q)] with [len(q) >= 2] returns the body the
    server sent with status 200; if that has two bytes or more, its first
    two bytes are those of [q] and the rest is the body's; if it is
    shorter it is the body itself.  Holds for the first transport and for
    the classified one. *)
Theorem successful_query_carries_query_id
  (t1 : Doh.transport) (t3 : DohClassified.transport) (q : list byte) :
  (2 ≤ length q)%nat →
  (err (Doh.Query t1 q) = None →
   ∃ req httpResponse resp,
     (http.Do (Doh.client t1) req).2 = Ok httpResponse ∧
     http.StatusCode httpResponse = 200 ∧
     response (Doh.Query t1 q) = Some resp ∧
     repaired q (http.ReadAll httpResponse).1 resp) ∧
  (err (DohClassified.Query t3 q) = None →
   ∃ req httpResponse resp,
     (http.Do (DohClassified.client t3) req).2 = Ok httpResponse ∧
     http.StatusCode httpResponse = 200 ∧
     response (DohClassified.Query t3 q) = Some resp ∧
     repaired q (http.ReadAll httpResponse).1 resp).
Proof.
  intros Hq. split.
  - unfold Doh.Query. case_bool_decide; [lia|].
    destruct (http.NewRequest _ _ _ _) as [req|e]; [|done].
    match goal with |- context [http.Do ?c ?r] => set (req' := r) end.
    destruct (http.Do (Doh.client t1) req').2 as [resp|e] eqn:E; [|done].
    case_bool_decide as Hs; [done|].
    destruct (http.ReadAll resp) as [body rerr] eqn:Eb; simpl. intros _.
    exists req', resp. eexists. split; [done|]. split.
    { destruct (decide (http.StatusCode resp = 200)); done. }
    split; [done|]. rewrite Eb. simpl. by apply repaired_patch.
  - simpl. unfold DohClassified.transport_Query, DohClassified.doQuery.
    case_bool_decide; [lia|].
    destruct (http.NewRequest _ _ _ _) as [req|e]; [|done].
    match goal with |- context [http.Do ?c ?r] => set (req' := r) end.
    destruct (http.Do (DohClassified.client t3) req') as [gotConn [resp|e]]
      eqn:E; [|done].
    case_bool_decide as Hs; [done|].
    destruct (http.ReadAll resp) as [body rerr] eqn:Eb; simpl. intros _.
    exists req', resp. eexists. split; [by rewrite E|]. split.
    { destruct (decide (http.StatusCode resp = 200)); done. }
    split; [done|]. rewrite Eb. simpl. by apply repaired_patch.
Qed.

Lemma successful_query_carries_query_id_witness :
  let q := [x6f; xde; x01; x00] in
  let t1 := Doh.mkTransport "https://dns.google/dns-query" 443
              [Fixtures.ip_8888] (Fixtures.answering [x00; x00; x81; x80]) in
  let t3 := DohClassified.mkTransport "https://dns.google/dns-query"
              "dns.google" 443 [Fixtures.ip_8888]
              (Fixtures.answering [x07]) false in
  (2 ≤ length q)%nat ∧
  response (Doh.Query t1 q) = Some [x6f; xde; x81; x80] ∧
  response (DohClassified.Query t3 q) = Some [x07] ∧
  (∃ req httpResponse resp,
     (http.Do (Doh.client t1) req).2 = Ok httpResponse ∧
     http.StatusCode httpResponse = 200 ∧
     response (Doh.Query t1 q) = Some resp ∧
     repaired q (http.ReadAll httpResponse).1 resp) ∧
  (∃ req httpResponse resp,
     (http.Do (DohClassified.client t3) req).2 = Ok httpResponse ∧
     http.StatusCode httpResponse = 200 ∧
     response (DohClassified.Query t3 q) = Some resp ∧
     repaired q (http.ReadAll httpResponse).1 resp).
Proof.
  cbv zeta.
  split; [simpl; lia|]. split; [vm_compute; reflexivity|].
  split; [vm_compute; reflexivity|].
  match goal with
  | |- (∃ _ _ _, _ ∧ _ ∧ response (Doh.Query ?t1 ?q) = _ ∧ _) ∧
       (∃ _ _ _, _ ∧ _ ∧ response (DohClassified.Query ?t3 _) = _ ∧ _) =>
      destruct (successful_query_carries_query_id t1 t3 q) as [H1 H3];
        [simpl; lia|]
  end.
  split; [apply H1|apply H3]; vm_compute; reflexivity.
Defined.

(** Scenario 5: the server sees the ID [00 00] on the wire (the echoing
    server sends back what it received, behind two marker bytes), the
    caller gets its ID [ab cd] in the response and in its own buffer. *)
Example id_is_zero_on_the_wire :
  let mirror := http.mkClient Fixtures.NewRequest
      (λ req, (Some "8.8.8.8",
               Ok (http.mkResponse 200 "200 OK"
                     (x99 :: x99 :: http.Body req, None)))) in
  let t := DohClassified.mkTransport "https://dns.google/dns-query"
             "dns.google" 443 [Fixtures.ip_8888] mirror true in
  DohClassified.transport_Query t [xab; xcd; x01; x00]
  = (mkOutcome [xab; xcd; x01; x00]
       (Some [xab; xcd; x00; x00; x01; x00]) None,
     Some (DohClassified.mkSummary [xab; xcd; x01; x00]
             (Some [xab; xcd; x00; x00; x01; x00]) "8.8.8.8"
             DohClassified.Complete)).
Proof. vm_compute. reflexivity. Qed.

(** C9: in the classified transport, a call of [Query] that returns an
    error returns a nil response, and the error is a [queryError] whose
    status is [BadQuery], [InternalError], [SendFailed] or [HTTPError];
    a response that is not nil comes with a nil error. *)
Theorem classified_error_means_nil_response
  (t : DohClassified.transport) (q : list byte) :
  (is_Some (err (DohClassified.Query t q)) →
   response (DohClassified.Query t q) = None ∧
   ∃ status cause,
     err (DohClassified.Query t q) = Some (QueryError status cause) ∧
     status ∈ [DohClassified.BadQuery; DohClassified.InternalError;
               DohClassified.SendFailed; DohClassified.HTTPError]) ∧
  (∀ r, response (DohClassified.Query t q) = Some r →
        err (DohClassified.Query t q) = None).
Proof.
  simpl. unfold DohClassified.transport_Query, DohClassified.doQuery.
  case_bool_decide.
  { simpl. split; [|done]. intros _. split; [done|].
    eexists _, _. split; [done|]. set_solver. }
  destruct (http.NewRequest _ _ _ _) as [req|e].
  2:{ simpl. split; [|done]. intros _. split; [done|].
      eexists _, _. split; [done|]. set_solver. }
  destruct (http.Do _ _) as [gotConn [resp|e]].
  2:{ simpl. split; [|done]. intros _. split; [done|].
      eexists _, _. split; [done|]. set_solver. }
  case_bool_decide.
  { simpl. split; [|done]. intros _. split; [done|].
    eexists _, _. split; [done|]. set_solver. }
  destruct (http.ReadAll resp) as [body rerr]; simpl.
  split; [|done]. intros [? [=]].
Qed.

Lemma classified_error_means_nil_response_witness :
  let t := DohClassified.mkTransport "https://dns.google/dns-query"
             "dns.google" 443 [Fixtures.ip_8888] Fixtures.refusing false in
  let q := [x6f; xde; x01; x00] in
  err (DohClassified.Query t q)
    = Some (QueryError DohClassified.HTTPError
              (Errorf "HTTP request failed: %d" [ArgInt 503])) ∧
  response (DohClassified.Query t q) = None.
Proof.
  cbv zeta. split; [vm_compute; reflexivity|].
  match goal with
  | |- response (DohClassified.Query ?t ?q) = None =>
      apply (proj1 (classified_error_means_nil_response t q))
  end.
  vm_compute. eexists. reflexivity.
Defined.

(** ** The framed response *)

Section FramingFacts.
Import slices.

Lemma Z_of_byte_of_Z (v : Z) : Z_of_byte (byte_of_Z v) = v mod 256.
Proof.
  unfold Z_of_byte, byte_of_Z.
  pose proof (Z.mod_pos_bound v 256 eq_refl) as Hb.
  destruct (Byte.of_N (Z.to_N (v mod 256))) as [b|] eqn:E; simpl.
  - apply Byte.to_of_N in E. rewrite E. apply Z2N.id. lia.
  - apply Byte.of_N_None_iff in E. lia.
Qed.

(** The two bytes [PutUint16] stores are the big-endian digits. *)
Lemma PutUint16_digits (n : Z) :
  0 ≤ n ≤ MaxUint16 →
  256 * Z_of_byte (byte_of_Z (Z.shiftr (uint16 n) 8))
    + Z_of_byte (byte_of_Z (uint16 n)) = n.
Proof.
  unfold MaxUint16, uint16. intros Hn.
  rewrite !Z_of_byte_of_Z, Z.shiftr_div_pow2 by lia.
  rewrite (Z.mod_small n 65536) by lia.
  change (2 ^ 8) with 256.
  rewrite (Z.mod_small (n / 256) 256).
  - pose proof (Z.div_mod n 256). lia.
  - split; [apply Z.div_pos; lia|].
    apply Z.div_lt_upper_bound; lia.
Qed.

Lemma land_shiftl8_small (a b : Z) :
  0 ≤ b < 256 → Z.land (Z.shiftl a 8) b = 0.
Proof.
  intros Hb. apply Z.bits_inj'. intros n Hn.
  rewrite Z.land_spec, Z.bits_0.
  destruct (decide (n < 8)) as [Hlt|Hge].
  - by rewrite Z.shiftl_spec_low.
  - destruct (decide (b = 0)) as [->|Hnz].
    + by rewrite Z.bits_0, andb_false_r.
    + rewrite (Z.bits_above_log2 b n), andb_false_r; [done|lia|].
      assert (Z.log2 b < 8); [|lia].
      apply Z.log2_lt_pow2; lia.
Qed.

(** [Uint16] reads back what [PutUint16] stored. *)
Lemma Uint16_PutUint16 (b : list byte) (n : Z) :
  (2 ≤ length b)%nat →
  0 ≤ n ≤ MaxUint16 →
  Uint16 (PutUint16 b (uint16 n)) = n.
Proof.
  intros Hb Hn. destruct b as [|x [|y b]]; simpl in Hb; try lia.
  unfold Uint16, PutUint16, set01, index. simpl.
  pose proof (Z_of_byte_of_Z (uint16 n)) as Hlo.
  pose proof (Z.mod_pos_bound (uint16 n) 256 eq_refl) as Hlo_b.
  rewrite <- Z.lxor_lor, <- Z.add_nocarry_lxor
    by (apply land_shiftl8_small; lia).
  rewrite Z.shiftl_mul_pow2 by lia. change (2 ^ 8) with 256.
  pose proof (PutUint16_digits n Hn). lia.
Qed.

(** The buffer that [forwardQuery] of [part_003] assembles. *)
Lemma combined_buffer (resp : list byte) (v : Z) :
  copy_at (PutUint16 (make (length resp + 2)) v) 2 resp
  = byte_of_Z (Z.shiftr v 8) :: byte_of_Z v :: resp.
Proof.
  unfold make. rewrite Nat.add_comm. simpl.
  unfold PutUint16, copy_at, copy. simpl.
  rewrite drop_0, length_replicate, take_ge by lia.
  rewrite drop_ge by (rewrite length_replicate; lia).
  by rewrite app_nil_r.
Qed.

(** The forwarder of [part_003] issues one [Write], of the length prefix
    followed by the response, whatever transport answered. *)
Lemma classified_forward_single_write `{DohClassified.DNSTransport T}
  (t : T) (q : list byte) (c : io.Conn) (resp : list byte) :
  err (DohClassified.Query t q) = None →
  response (DohClassified.Query t q) = Some resp →
  Z.of_nat (length resp) ≤ MaxUint16 →
  ∃ hi lo,
    io.ops (DohClassified.forwardQuery t q c).1.2
      = io.ops c ++ [io.OpWrite (hi :: lo :: resp)] ∧
    Uint16 [hi; lo] = Z.of_nat (length resp) ∧
    256 * Z_of_byte hi + Z_of_byte lo = Z.of_nat (length resp).
Proof.
  intros He Hr Hlen. unfold DohClassified.forwardQuery.
  rewrite He, Hr. simpl default.
  case_bool_decide; [lia|].
  rewrite combined_buffer. unfold io.Write.
  assert (Hn : 0 ≤ Z.of_nat (length resp) ≤ MaxUint16) by lia.
  pose proof (Uint16_PutUint16 [x00; x00] _ ltac:(simpl; lia) Hn) as Hu.
  pose proof (PutUint16_digits _ Hn) as Hd.
  destruct (io.outcome c _) as [n [e|]]; simpl.
  - eexists _, _. split; [done|]. split; [exact Hu|exact Hd].
  - case_bool_decide; simpl;
      (eexists _, _; split; [done|]; split; [exact Hu|exact Hd]).
Qed.
End FramingFacts.

(** C8: the forwarders of [doh.go] and of [part_002] hand the length
    prefix and the response to [net.Buffers.WriteTo]; on a connection that
    is not one of package [net]'s own (the pipe-backed [fakeConn] of the
    tests) that is two [Write] calls, [00 05] and then the five bytes of
    the response.  The forwarder of [part_003] issues the single [Write] of
    [00 05] followed by the response. *)
Theorem forward_query_two_writes_on_pipe :
  let q := [x01; x02; x03; x04; x05] in
  let body := [x05; x04; x03; x02; x01] in
  let status := DohStatus.mkTransport "https://dns.google/dns-query" 443
                  [Fixtures.ip_8888] (Fixtures.answering body) false in
  let first := Doh.mkTransport "https://dns.google/dns-query" 443
                 [Fixtures.ip_8888] (Fixtures.answering body) in
  io.ops (DohStatus.forwardQuery status q Fixtures.fakeConn).2
    = [io.OpWrite [x00; x05]; io.OpWrite [x01; x02; x03; x02; x01]] ∧
  io.ops (Doh.forwardQuery first q Fixtures.fakeConn).2
    = [io.OpWrite [x00; x05]; io.OpWrite [x01; x02; x03; x02; x01]] ∧
  io.ops (DohStatus.forwardQuery status q Fixtures.tcpConn).2
    = [io.OpWritev [[x00; x05]; [x01; x02; x03; x02; x01]]] ∧
  io.ops (DohClassified.forwardQuery (DohClassified.mkFake body None) q
            Fixtures.fakeConn).1.2
    = [io.OpWrite [x00; x05; x05; x04; x03; x02; x01]].
Proof. cbv zeta. repeat split; vm_compute; reflexivity. Qed.

(** ** Promotion of the address that worked *)

Section PreferFacts.
Import net slices.

Lemma copy_same_length {A} (dst src : list A) :
  length dst = length src → copy dst src = src.
Proof.
  intros Hl. unfold copy.
  rewrite take_ge, drop_ge by lia. by rewrite app_nil_r.
Qed.

Lemma preferAddr_promotes (t_addrs addrs : list IP) (i : nat) (a : IP) :
  length t_addrs = length addrs →
  (0 < i)%nat →
  addrs !! i = Some a →
  Doh.preferAddr t_addrs addrs i = Some (promoted addrs i a).
Proof.
  intros Hlen Hi Ha. pose proof (lookup_lt_Some _ _ _ Ha) as Hlt.
  unfold Doh.preferAddr. case_bool_decide; [lia|].
  rewrite Ha. simpl.
  rewrite option_guard_True by lia. simpl.
  rewrite option_guard_True by (rewrite length_insert; lia). simpl.
  rewrite option_guard_True by lia. simpl.
  f_equal. unfold promoted, copy_range, copy_at.
  destruct t_addrs as [|x rest]; [simpl in *; lia|]. simpl in Hlen.
  replace (i + 1 - 1)%nat with i by lia.
  replace (i + 1)%nat with (S i) by lia. simpl.
  rewrite drop_0.
  rewrite (copy_same_length (take i rest) (take i addrs))
    by (rewrite !length_take; lia).
  f_equal.
  rewrite take_app_length' by (rewrite length_take; lia).
  rewrite drop_app_length' by (rewrite length_take; lia).
  rewrite copy_same_length by (rewrite !length_drop; lia).
  done.
Qed.

(** [preferAddr] never changes the length of the stored list. *)
Lemma preferAddr_length (t_addrs addrs t' : list IP) (i : nat) :
  length t_addrs = length addrs →
  Doh.preferAddr t_addrs addrs i = Some t' →
  length t' = length t_addrs.
Proof.
  intros Hlen. destruct (decide (i = 0%nat)) as [->|Hi].
  - by intros [= <-].
  - destruct (addrs !! i) as [a|] eqn:Ha.
    + rewrite (preferAddr_promotes _ _ _ a) by (done || lia).
      intros [= <-]. unfold promoted. simpl.
      apply lookup_lt_Some in Ha.
      rewrite length_app, length_take, length_drop. lia.
    + unfold Doh.preferAddr. rewrite bool_decide_eq_false_2 by done.
      by rewrite Ha.
Qed.

End PreferFacts.



(** ** The list built by the constructor *)

Section ConstructFacts.
Import net.

Lemma bytes_Equal_sym (a b : list byte) : bytes_Equal a b = bytes_Equal b a.
Proof. unfold bytes_Equal. apply bool_decide_ext. split; done. Qed.

Lemma IP_Equal_sym (a b : IP) : IP_Equal a b = IP_Equal b a.
Proof.
  unfold IP_Equal.
  repeat case_decide; try lia; try done;
    rewrite ?(bytes_Equal_sym a), ?(bytes_Equal_sym (drop 12 a));
    try done; destruct_and?; lia.
Qed.

Lemma add_fold (src dest : list IP) :
  DohClassified.add dest src = fold_left keep_new src dest.
Proof.
  revert dest. induction src as [|x src IH]; intros dest; simpl; [done|].
  unfold keep_new at 2. unfold DohClassified.found.
  destruct (existsb _ dest); apply IH.
Qed.

Lemma adds_fold (LookupIP : string → list IP) (fs : list string)
  (dest : list IP) :
  fold_left (λ t_ips addr, DohClassified.add t_ips (LookupIP addr)) fs dest
  = fold_left keep_new (flat_map LookupIP fs) dest.
Proof.
  revert dest. induction fs as [|f fs IH]; intros dest; simpl; [done|].
  by rewrite IH, fold_left_app, add_fold.
Qed.

Lemma addAddrs_fold (LookupIP : string → list IP) (fs : list string)
  (dest : list IP) :
  fold_left (Doh.addAddrs LookupIP) fs dest = dest ++ flat_map LookupIP fs.
Proof.
  revert dest. induction fs as [|f fs IH]; intros dest; simpl.
  - by rewrite app_nil_r.
  - rewrite IH. unfold Doh.addAddrs. by rewrite <- app_assoc.
Qed.

Lemma existsb_false_lookup (acc : list IP) (x a : IP) (i : nat) :
  existsb (λ y, IP_Equal y x) acc = false →
  acc !! i = Some a → IP_Equal a x = false.
Proof.
  intros He Ha. apply not_true_is_false. intros Heq.
  assert (existsb (λ y, IP_Equal y x) acc = true) as Ht; [|congruence].
  apply existsb_exists. exists a. split; [|done].
  apply list_elem_of_In. by eapply list_elem_of_lookup_2.
Qed.

Lemma keep_new_no_IP_twice (acc : list IP) (x : IP) :
  no_IP_twice acc → no_IP_twice (keep_new acc x).
Proof.
  intros Hacc. unfold keep_new.
  destruct (existsb _ acc) eqn:He; [done|].
  intros i j a b Hij Ha Hb.
  apply lookup_app_Some in Ha as [Ha|[Hia Ha]];
    apply lookup_app_Some in Hb as [Hb|[Hjb Hb]].
  - by eapply Hacc.
  - apply list_lookup_singleton_Some in Hb as [_ <-].
    by eapply existsb_false_lookup.
  - apply list_lookup_singleton_Some in Ha as [_ <-].
    rewrite IP_Equal_sym. by eapply existsb_false_lookup.
  - apply list_lookup_singleton_Some in Ha as [? _].
    apply list_lookup_singleton_Some in Hb as [? _]. lia.
Qed.

Lemma fold_keep_new_no_IP_twice (l acc : list IP) :
  no_IP_twice acc → no_IP_twice (fold_left keep_new l acc).
Proof.
  revert acc. induction l as [|x l IH]; intros acc Hacc; simpl; [done|].
  by apply IH, keep_new_no_IP_twice.
Qed.

Lemma dedupIP_id (l : list IP) : no_IP_twice l → dedupIP l = l.
Proof.
  unfold dedupIP. induction l as [|x l IH] using rev_ind; [done|].
  intros Hl. rewrite fold_left_app. simpl. rewrite IH.
  - unfold keep_new.
    destruct (existsb _ l) eqn:He; [|done].
    apply existsb_exists in He as (y & Hy & Heq).
    apply list_elem_of_In, list_elem_of_lookup in Hy as [i Hi].
    rewrite (Hl i (length l) y x) in Heq; [done| | |].
    + apply lookup_lt_Some in Hi. lia.
    + by apply lookup_app_l_Some.
    + by rewrite list_lookup_middle.
  - intros i j a b Hij Ha Hb.
    apply (Hl i j); [done| |]; by apply lookup_app_l_Some.
Qed.

Lemma dedupIP_app (l1 l2 : list IP) :
  dedupIP (l1 ++ l2) = fold_left keep_new l2 (dedupIP l1).
Proof. unfold dedupIP. by rewrite fold_left_app. Qed.

Lemma fold_keep_new_prefix (l acc : list IP) :
  ∃ new, fold_left keep_new l acc = acc ++ new.
Proof.
  revert acc. induction l as [|x l IH]; intros acc; simpl.
  - exists []. by rewrite app_nil_r.
  - unfold keep_new at 2. destruct (existsb _ acc); [apply IH|].
    destruct (IH (acc ++ [x])) as [new ->].
    exists (x :: new). by rewrite <- app_assoc.
Qed.
End ConstructFacts.

(** C4, as stated, fails.  In [doh.go] (and [part_002], same text) the
    constructor appends without looking: for [https://dns.google/dns-query]
    with the fallbacks [8.8.8.8] and [8.8.4.4] of the tests, the list is
    [8.8.8.8, 8.8.4.4, 8.8.8.8, 8.8.4.4].  In [part_003] the addresses of
    the URL host are stored as the resolver gave them: if it names
    [8.8.8.8] twice, the list starts with both. *)
Lemma constructed_list_repeats_addresses :
  let rawurl := "https://dns.google/dns-query" in
  let cl := Fixtures.answering [] in
  (∃ t, Doh.NewDoHTransport Fixtures.url_Parse Fixtures.Atoi
          Fixtures.LookupIP cl rawurl ["8.8.8.8"; "8.8.4.4"] = Ok t ∧
        Doh.addrs t = [Fixtures.ip_8888; Fixtures.ip_8844;
                       Fixtures.ip_8888; Fixtures.ip_8844] ∧
        ¬ no_IP_twice (Doh.addrs t) ∧
        Doh.addrs t ≠
          dedupIP (Fixtures.LookupIP "dns.google" ++
                   flat_map Fixtures.LookupIP ["8.8.8.8"; "8.8.4.4"])) ∧
  (∃ t, DohClassified.NewDoHTransport Fixtures.url_Parse Fixtures.Atoi
          Fixtures.LookupIP_repeating cl rawurl ["8.8.4.4"] false = Ok t ∧
        DohClassified.ips t = [Fixtures.ip_8888; Fixtures.ip_8888;
                               Fixtures.ip_8844] ∧
        ¬ no_IP_twice (DohClassified.ips t) ∧
        DohClassified.ips t ≠
          dedupIP (Fixtures.LookupIP_repeating "dns.google" ++
                   flat_map Fixtures.LookupIP_repeating ["8.8.4.4"])).
Proof.
  cbv zeta. split.
  - eexists. split; [vm_compute; reflexivity|]. split; [reflexivity|].
    split.
    + intros H.
      specialize (H 0%nat 2%nat Fixtures.ip_8888 Fixtures.ip_8888).
      vm_compute in H. specialize (H ltac:(lia) eq_refl eq_refl).
      discriminate.
    + vm_compute. discriminate.
  - eexists. split; [vm_compute; reflexivity|]. split; [reflexivity|].
    split.
    + intros H.
      specialize (H 0%nat 1%nat Fixtures.ip_8888 Fixtures.ip_8888).
      vm_compute in H. specialize (H ltac:(lia) eq_refl eq_refl).
      discriminate.
    + vm_compute. discriminate.
Qed.

(** C4, amended: in the constructor that uses [add] ([part_003]), the
    list of a successfully built transport is the resolved addresses of
    the URL host as the resolver gave them, followed by the resolved
    addresses of the fallbacks in order, each kept only if it is not
    IP-equal to an address already in the list; if the host's resolved
    addresses do not repeat an IP, the list is the order-preserving
    deduplication of the whole concatenation and no IP appears twice. *)
Theorem constructed_list_dedups_fallbacks
  (url_Parse : string → result (string * string * string))
  (Atoi : string → result Z) (LookupIP : string → list net.IP)
  (cl : http.Client) (rawurl : string) (fs : list string) (listener : bool)
  (t : DohClassified.transport) :
  DohClassified.NewDoHTransport url_Parse Atoi LookupIP cl rawurl fs listener
    = Ok t →
  ∃ h portStr,
    url_Parse rawurl = Ok ("https", h, portStr) ∧
    DohClassified.ips t
      = fold_left keep_new (flat_map LookupIP fs) (LookupIP h) ∧
    (∃ new, DohClassified.ips t = LookupIP h ++ new) ∧
    (no_IP_twice (LookupIP h) →
     DohClassified.ips t = dedupIP (LookupIP h ++ flat_map LookupIP fs) ∧
     no_IP_twice (DohClassified.ips t)).
Proof.
  unfold DohClassified.NewDoHTransport.
  destruct (url_Parse rawurl) as [[[scheme h] portStr]|e]; simpl; [|done].
  case_bool_decide as Hs; [done|].
  assert (scheme = "https") as ->.
  { destruct (decide (scheme = "https")); done. }
  destruct (if bool_decide (0 < String.length portStr)%nat
            then Atoi portStr else Ok 443) as [port|e]; simpl; [|done].
  case_bool_decide; [done|]. intros [= <-]. simpl.
  exists h, portStr. rewrite adds_fold.
  split; [done|]. split; [done|]. split.
  - apply fold_keep_new_prefix.
  - intros Hh. rewrite dedupIP_app, (dedupIP_id _ Hh).
    split; [done|]. by apply fold_keep_new_no_IP_twice.
Qed.

Lemma constructed_list_dedups_fallbacks_witness :
  ∃ t,
    DohClassified.NewDoHTransport Fixtures.url_Parse Fixtures.Atoi
      Fixtures.LookupIP (Fixtures.answering [])
      "https://dns.google/dns-query" ["8.8.8.8"; "1.1.1.1"; "8.8.4.4"] false
    = Ok t ∧
    DohClassified.ips t
      = [Fixtures.ip_8888; Fixtures.ip_8844; Fixtures.ip_1111] ∧
    no_IP_twice (Fixtures.LookupIP "dns.google") ∧
    no_IP_twice (DohClassified.ips t).
Proof.
  eexists. split; [vm_compute; reflexivity|]. split; [reflexivity|].
  assert (Hh : no_IP_twice (Fixtures.LookupIP "dns.google")).
  { intros [|[|i]] [|[|j]] a b Hij Ha Hb; try done;
      vm_compute in Ha, Hb; simplify_eq; vm_compute; reflexivity. }
  split; [exact Hh|].
  match goal with
  | |- no_IP_twice (DohClassified.ips ?t) =>
      destruct (constructed_list_dedups_fallbacks Fixtures.url_Parse
                  Fixtures.Atoi Fixtures.LookupIP (Fixtures.answering [])
                  "https://dns.google/dns-query"
                  ["8.8.8.8"; "1.1.1.1"; "8.8.4.4"] false t)
        as (h & portStr & Hu & _ & _ & Hd)
  end.
  - vm_compute. reflexivity.
  - vm_compute in Hu. injection Hu as <- <-.
    exact (proj2 (Hd Hh)).
Defined.

(** * Further properties of the code *)

(** ** [IPSet]: union, confirmation, shuffled copy *)

Section IPSetMore.
Import net.

Lemma IP_Equal_refl (ip : IP) : IP_Equal ip ip = true.
Proof.
  unfold IP_Equal, bytes_Equal. rewrite decide_True by done.
  by apply bool_decide_eq_true_2.
Qed.

Lemma IPMap_has_snoc_self (l : list IP) (ip : IP) :
  IPMap.has (l ++ [ip]) ip = true.
Proof.
  unfold IPMap.has. rewrite existsb_app. simpl.
  rewrite IP_Equal_refl. by rewrite orb_true_r.
Qed.

Lemma IPMap_union_spec (r l : list IP) :
  ∃ new, IPMap.union l r = l ++ new ∧
         (∀ ip, ip ∈ new → ip ∈ r) ∧
         (∀ ip, ip ∈ r → IPMap.has (IPMap.union l r) ip = true).
Proof.
  revert l. induction r as [|x r IH]; intros l; simpl.
  - exists []. rewrite app_nil_r. split; [done|]. split; set_solver.
  - destruct (IPMap.has l x) eqn:Hx.
    + destruct (IH l) as (new & Hu & Hnew & Hfound). exists new.
      split; [done|]. split; [set_solver|].
      intros ip [->|Hip]%elem_of_cons; [|by apply Hfound].
      rewrite Hu. by apply IPMap_has_app_l.
    + destruct (IH (l ++ [x])) as (new & Hu & Hnew & Hfound).
      exists (x :: new). split; [by rewrite Hu, <- app_assoc|].
      split.
      { intros ip [->|Hip]%elem_of_cons; apply elem_of_cons;
          [by left|right; by apply Hnew]. }
      intros ip [->|Hip]%elem_of_cons; [|by apply Hfound].
      rewrite Hu. apply IPMap_has_app_l, IPMap_has_snoc_self.
Qed.

Lemma IPMap_union_all_found (r l : list IP) :
  (∀ ip, ip ∈ r → IPMap.has l ip = true) → IPMap.union l r = l.
Proof.
  induction r as [|x r IH]; intros Hr; simpl; [done|].
  rewrite (Hr x) by set_solver. apply IH. set_solver.
Qed.

Lemma IPMap_union_fold (r l : list IP) :
  IPMap.union l r = fold_left keep_new r l.
Proof.
  revert l. induction r as [|x r IH]; intros l; simpl; [done|].
  unfold keep_new at 2. unfold IPMap.has.
  destruct (existsb _ l); apply IH.
Qed.

Lemma swap_lookup (c c' : list IP) (i j n : nat) :
  IPMap.swap c i j = Some c' →
  c' !! n = c !! (if decide (n = i) then j
                  else if decide (n = j) then i else n).
Proof.
  unfold IPMap.swap.
  destruct (c !! i) as [ci|] eqn:Hi; [|done].
  destruct (c !! j) as [cj|] eqn:Hj; [|done]. simpl. intros [= <-].
  pose proof (lookup_lt_Some _ _ _ Hi). pose proof (lookup_lt_Some _ _ _ Hj).
  destruct (decide (n = j)) as [->|Hnj].
  - rewrite list_lookup_insert_eq by (rewrite length_insert; lia).
    destruct (decide (j = i)) as [->|]; congruence.
  - rewrite list_lookup_insert_ne by done.
    destruct (decide (n = i)) as [->|Hni].
    + rewrite list_lookup_insert_eq by lia. done.
    + by rewrite list_lookup_insert_ne.
Qed.

Lemma swap_Permutation (c c' : list IP) (i j : nat) :
  IPMap.swap c i j = Some c' → c' ≡ₚ c.
Proof.
  intros Hs. apply Permutation_inj. split.
  - revert Hs. unfold IPMap.swap.
    destruct (c !! i); [|done]. destruct (c !! j); [|done].
    simpl. intros [= <-]. by rewrite !length_insert.
  - exists (λ n, if decide (n = i) then j
                 else if decide (n = j) then i else n).
    split.
    + intros a b. repeat case_decide; congruence.
    + intros n. by apply swap_lookup.
Qed.
End IPSetMore.

(** X1: [Add] is a union.  The addresses the set had stay where they
    were, what is appended comes from the resolver's answer, every
    resolved address is IP-equal to a member afterwards, and the confirmed
    address is not touched. *)
Theorem Add_is_union (LookupIP : string → list net.IP) (s : IPMap.IPSet)
  (hostname : string) :
  (∃ new, IPMap.ips (IPMap.Add LookupIP s hostname) = IPMap.ips s ++ new ∧
          ∀ ip, ip ∈ new → ip ∈ LookupIP hostname) ∧
  (∀ ip, ip ∈ LookupIP hostname →
         IPMap.has (IPMap.ips (IPMap.Add LookupIP s hostname)) ip = true) ∧
  IPMap.confirmed (IPMap.Add LookupIP s hostname) = IPMap.confirmed s.
Proof.
  unfold IPMap.Add, IPMap.Add_resolved. simpl.
  destruct (IPMap_union_spec (LookupIP hostname) (IPMap.ips s))
    as (new & Hu & Hnew & Hfound).
  split; [by exists new|]. split; [done|done].
Qed.

(** X2: [Add] keeps the set free of repeated IPs: if no two positions of
    the sequence hold IP-equal addresses before, none do afterwards,
    whatever the resolver answers (repeated or known addresses
    included). *)
Theorem Add_keeps_no_IP_twice (LookupIP : string → list net.IP)
  (s : IPMap.IPSet) (hostname : string) :
  no_IP_twice (IPMap.ips s) →
  no_IP_twice (IPMap.ips (IPMap.Add LookupIP s hostname)).
Proof.
  intros Hs. unfold IPMap.Add, IPMap.Add_resolved. simpl.
  rewrite IPMap_union_fold. by apply fold_keep_new_no_IP_twice.
Qed.

Lemma Add_keeps_no_IP_twice_witness :
  IPMap.ips (IPMap.Add Fixtures.LookupIP_repeating IPMap.new "dns.google")
    = [Fixtures.ip_8888] ∧
  no_IP_twice
    (IPMap.ips (IPMap.Add Fixtures.LookupIP_repeating IPMap.new "dns.google")).
Proof.
  split; [vm_compute; reflexivity|].
  apply (Add_keeps_no_IP_twice Fixtures.LookupIP_repeating IPMap.new).
  intros i j a b _ Ha. simpl in Ha. by destruct i.
Defined.

(** X3: adding the same resolver answer a second time changes nothing. *)
Theorem Add_twice_is_Add_once (s : IPMap.IPSet) (resolved : list net.IP) :
  IPMap.Add_resolved (IPMap.Add_resolved s resolved) resolved
  = IPMap.Add_resolved s resolved.
Proof.
  unfold IPMap.Add_resolved. simpl. f_equal.
  apply IPMap_union_all_found.
  destruct (IPMap_union_spec resolved (IPMap.ips s)) as (new & _ & _ & H).
  exact H.
Qed.

(** X4: the set is empty after [Add] exactly if it was empty before and
    the resolver gave no address. *)
Theorem Empty_after_Add (LookupIP : string → list net.IP) (s : IPMap.IPSet)
  (hostname : string) :
  IPMap.Empty (IPMap.Add LookupIP s hostname) = true ↔
  IPMap.Empty s = true ∧ LookupIP hostname = [].
Proof.
  rewrite !IPMap_Empty_iff. unfold IPMap.Add, IPMap.Add_resolved. simpl.
  destruct (IPMap_union_spec (LookupIP hostname) (IPMap.ips s))
    as (new & Hu & _ & Hfound).
  split.
  - intros He. rewrite He in Hu. symmetry in Hu.
    apply app_eq_nil in Hu as [Hs _]. split; [done|].
    destruct (LookupIP hostname) as [|x r]; [done|].
    specialize (Hfound x ltac:(set_solver)). by rewrite He in Hfound.
  - intros [-> ->]. done.
Qed.

(** X5: [Confirm] of a valid IP string makes that IP the confirmed one;
    [Disconfirm] of that IP clears it again, [Disconfirm] of an IP that is
    not IP-equal to it changes nothing; [Confirm] of a string that is not
    an IP changes nothing. *)
Theorem Confirm_then_Disconfirm (ParseIP : string → option net.IP)
  (s : IPMap.IPSet) (ipstr : string) (ip : net.IP) :
  ParseIP ipstr = Some ip →
  IPMap.Confirmed (IPMap.Confirm ParseIP s ipstr) = Some ip ∧
  IPMap.Confirmed (IPMap.Disconfirm (IPMap.Confirm ParseIP s ipstr) ip)
    = None ∧
  (∀ other, net.IP_Equal other ip = false →
     IPMap.Disconfirm (IPMap.Confirm ParseIP s ipstr) other
     = IPMap.Confirm ParseIP s ipstr) ∧
  (∀ bad, ParseIP bad = None → IPMap.Confirm ParseIP s bad = s).
Proof.
  intros Hp. unfold IPMap.Confirm, IPMap.Disconfirm, IPMap.Confirmed.
  rewrite Hp. simpl. rewrite IP_Equal_refl. simpl.
  repeat split; [|by intros bad ->].
  intros other ->. done.
Qed.

Lemma Confirm_then_Disconfirm_witness :
  let s := IPMap.Add Fixtures.LookupIP IPMap.new "dns.google" in
  IPMap.Confirmed (IPMap.Confirm Fixtures.ParseIP s "8.8.4.4")
    = Some Fixtures.ip_8844 ∧
  IPMap.Confirmed
    (IPMap.Disconfirm (IPMap.Confirm Fixtures.ParseIP s "8.8.4.4")
       Fixtures.ip_8844) = None.
Proof.
  cbv zeta.
  destruct (Confirm_then_Disconfirm Fixtures.ParseIP
              (IPMap.Add Fixtures.LookupIP IPMap.new "dns.google")
              "8.8.4.4" Fixtures.ip_8844) as (H1 & H2 & _).
  - vm_compute. reflexivity.
  - split; [exact H1|exact H2].
Defined.

Lemma Shuffle_Permutation (n : nat) (pairs : list (nat * nat))
  (c : list net.IP) :
  length c = n →
  Forall (λ p, p.1 < n ∧ p.2 < n)%nat pairs →
  ∃ c', IPMap.Shuffle c pairs = Some c' ∧ c' ≡ₚ c.
Proof.
  revert c. induction pairs as [|[i j] pairs IH]; intros c Hlen Hp; simpl.
  - by exists c.
  - apply Forall_cons in Hp as [[Hi Hj] Hp]. simpl in Hi, Hj.
    destruct (lookup_lt_is_Some_2 c i) as [ci Hci]; [lia|].
    destruct (lookup_lt_is_Some_2 c j) as [cj Hcj]; [lia|].
    destruct (IPMap.swap c i j) as [c1|] eqn:Hs.
    2:{ unfold IPMap.swap in Hs. by rewrite Hci, Hcj in Hs. }
    pose proof (swap_Permutation _ _ _ _ Hs) as Hperm. simpl.
    destruct (IH c1) as (c' & Hc' & Hp'); [|done|].
    + apply Permutation_length in Hperm. lia.
    + exists c'. split; [done|]. by rewrite Hp'.
Qed.

(** X6: [GetAll] returns a rearrangement of the set's addresses: if the
    generator calls the swap closure with indices below the length (as
    [rand.Shuffle] does), the result holds exactly the addresses of the
    set, each as often as the set does. *)
Theorem GetAll_is_a_permutation (s : IPMap.IPSet) (pairs : list (nat * nat)) :
  Forall (λ p, p.1 < length (IPMap.ips s) ∧ p.2 < length (IPMap.ips s))%nat
         pairs →
  ∃ c, IPMap.GetAll s pairs = Some c ∧ c ≡ₚ IPMap.ips s.
Proof.
  intros Hp. unfold IPMap.GetAll. simpl.
  by apply (Shuffle_Permutation (length (IPMap.ips s))).
Qed.

Lemma GetAll_is_a_permutation_witness :
  let s := IPMap.mkIPSet
             [Fixtures.ip_8888; Fixtures.ip_8844; Fixtures.ip_1111] None in
  IPMap.GetAll s [(2, 0); (1, 1)]%nat
    = Some [Fixtures.ip_1111; Fixtures.ip_8844; Fixtures.ip_8888] ∧
  ∃ c, IPMap.GetAll s [(2, 0); (1, 1)]%nat = Some c ∧ c ≡ₚ IPMap.ips s.
Proof.
  cbv zeta. split; [vm_compute; reflexivity|].
  apply GetAll_is_a_permutation.
  repeat constructor; simpl; lia.
Defined.

(** ** The hostname map: allocation, sharing, progress *)

Section GetMore.
Import IPMap.

Lemma lookup_insert_call (cs : list call) (tid t : nat) (c' c : call) :
  <[tid := c']> cs !! t = Some c →
  (t = tid ∧ c = c') ∨ (t ≠ tid ∧ cs !! t = Some c).
Proof.
  intros [(-> & -> & _)|[? ?]]%list_lookup_insert_Some; [by left|by right].
Qed.

Lemma map_sound_start : map_sound start.
Proof.
  repeat split; done.
Qed.

Lemma map_sound_same_map (w : world) (cs : list call) :
  map_sound w →
  (∀ t h s, cs !! t = Some (AtLock h s) → calls w !! t = Some (AtLock h s)) →
  map_sound (mkWorld (shared w) cs).
Proof.
  intros (Ha & Hb & Hc & Hd) Hcs. repeat split; simpl; try done.
  - by eapply Hb, Hcs.
  - by eapply Hb, Hcs.
  - intros tid1 tid2 h1 h2 s H1 H2. eapply Hc; by apply Hcs.
Qed.

Lemma exec_map_sound (w : world) (e : event) :
  map_sound w → map_sound (exec w e).
Proof.
  intros Hw. destruct e as [h|tid resolved|p f]; simpl.
  - apply map_sound_same_map; [done|].
    intros t h' s [?|[_ Hl]]%lookup_app_Some; [done|].
    destruct (t - length (calls w))%nat; done.
  - destruct (calls w !! tid) as [c|] eqn:Ec; [|done].
    destruct c as [h|h|h s|h s]; simpl.
    + destruct (m (shared w) !! h);
        (apply map_sound_same_map; [done|]);
        intros t h' s' [[_ ?]|[_ ?]]%lookup_insert_call; done.
    + destruct Hw as (Ha & Hb & Hc & Hd).
      split; [|split; [|split]]; simpl; rewrite ?length_app; simpl.
      * intros h' s Hs. apply Ha in Hs. lia.
      * intros t h' s [[_ [= _ ->]]|[_ Hl]]%lookup_insert_call.
        -- split; [lia|]. intros h'' Hm. apply Ha in Hm. lia.
        -- apply Hb in Hl as [? Hn]. split; [lia|done].
      * intros tid1 tid2 h1 h2 s
          [[-> [= _ ->]]|[? H1]]%lookup_insert_call
          [[-> E2]|[? H2]]%lookup_insert_call; try done.
        -- apply Hb in H2 as [? _]. lia.
        -- injection E2 as _ ->. apply Hb in H1 as [? _]. lia.
        -- by eapply Hc.
      * done.
    + destruct (m (shared w) !! h) as [s2|] eqn:Em.
      * apply map_sound_same_map; [done|].
        intros t h' s' [[_ ?]|[_ ?]]%lookup_insert_call; done.
      * destruct Hw as (Ha & Hb & Hc & Hd).
        pose proof (Hb _ _ _ Ec) as [Hs Hfree].
        split; [|split; [|split]]; simpl.
        -- intros h' s' [[_ <-]|[_ Hm]]%lookup_insert_Some; [done|].
           by eapply Ha.
        -- intros t h' s' [[_ ?]|[Hne Hl]]%lookup_insert_call; [done|].
           pose proof (Hb _ _ _ Hl) as [? Hn]. split; [done|].
           intros h'' [[_ <-]|[_ Hm]]%lookup_insert_Some.
           ++ by pose proof (Hc _ _ _ _ _ Hl Ec).
           ++ by apply Hn in Hm.
        -- intros tid1 tid2 h1 h2 s'
             [[_ ?]|[_ H1]]%lookup_insert_call
             [[_ ?]|[_ H2]]%lookup_insert_call; try done.
           by eapply Hc.
        -- intros h1 h2 s' [[<- <-]|[? H1]]%lookup_insert_Some
                            [[<- ?]|[? H2]]%lookup_insert_Some;
             try done; subst.
           ++ by apply Hfree in H2.
           ++ by apply Hfree in H1.
           ++ by eapply Hd.
    + apply map_sound_same_map; [done|].
      intros t h' s' [[_ ?]|[_ ?]]%lookup_insert_call; done.
  - destruct (heap (shared w) !! p); [|done].
    destruct Hw as (Ha & Hb & Hc & Hd).
    split; [|split; [|split]]; simpl; rewrite ?length_insert; done.
Qed.

Lemma run_map_sound (es : list event) (w : world) :
  map_sound w → map_sound (run w es).
Proof.
  revert w. induction es as [|e es IH]; intros w Hw; simpl; [done|].
  by apply IH, exec_map_sound.
Qed.

Lemma step_call_progress (resolved : list net.IP) (mp : ipMap) (c : call) :
  hostname_of (step_call resolved mp c).2 = hostname_of c ∧
  (steps_left (step_call resolved mp c).2 ≤ steps_left c - 1)%nat.
Proof.
  destruct c as [h|h|h s|h s]; simpl.
  - destruct (m mp !! h); simpl; split; (done || lia).
  - split; (done || lia).
  - destruct (m mp !! h); simpl; split; (done || lia).
  - split; (done || lia).
Qed.

Lemma exec_progress (w : world) (e : event) (tid : nat) (c : call) :
  calls w !! tid = Some c →
  ∃ c', calls (exec w e) !! tid = Some c' ∧
        hostname_of c' = hostname_of c ∧
        (steps_left c' ≤ steps_left c - runs_of tid [e])%nat.
Proof.
  intros Hc. destruct e as [h|t resolved|p f]; simpl.
  - exists c. rewrite lookup_app_l by (by eapply lookup_lt_Some).
    split; [done|]. split; [done|lia].
  - destruct (calls w !! t) as [ct|] eqn:Et.
    + destruct (step_call resolved (shared w) ct) as [mp c'] eqn:Es. simpl.
      destruct (decide (t = tid)) as [->|Hne].
      * exists c'.
        rewrite list_lookup_insert_eq by (by eapply lookup_lt_Some).
        assert (ct = c) as -> by congruence.
        pose proof (step_call_progress resolved (shared w) c) as Hp.
        rewrite Es in Hp. simpl in Hp.
        split; [done|]. split; [tauto|lia].
      * exists c. rewrite list_lookup_insert_ne by done.
        split; [done|]. split; [done|lia].
    + exists c. destruct (decide (t = tid)) as [->|Hne]; [congruence|].
      split; [done|]. split; [done|lia].
  - exists c.
    destruct (heap (shared w) !! p); simpl;
      (split; [done|]; split; [done|lia]).
Qed.

Lemma runs_of_cons (tid : nat) (e : event) (es : list event) :
  runs_of tid (e :: es) = (runs_of tid [e] + runs_of tid es)%nat.
Proof. destruct e; simpl; lia. Qed.

Lemma run_progress (es : list event) (w : world) (tid : nat) (c : call) :
  calls w !! tid = Some c →
  ∃ c', calls (run w es) !! tid = Some c' ∧
        hostname_of c' = hostname_of c ∧
        (steps_left c' ≤ steps_left c - runs_of tid es)%nat.
Proof.
  revert w c. induction es as [|e es IH]; intros w c Hc.
  - exists c. simpl. split; [done|]. split; [done|lia].
  - destruct (exec_progress w e tid c Hc) as (c1 & H1 & Hh1 & Hs1).
    destruct (IH _ _ H1) as (c2 & H2 & Hh2 & Hs2).
    exists c2. split; [done|]. split; [congruence|].
    rewrite runs_of_cons. lia.
Qed.
End GetMore.

(** X7: in every interleaving, a set that [Get] has returned is
    allocated, and it is the set of one hostname only: calls for two
    different hostnames never return the same pointer. *)
Theorem get_sets_are_allocated_and_not_shared (es : list IPMap.event)
  (tid1 tid2 : nat) (h1 h2 : string) (s : IPMap.ptr) :
  IPMap.calls (IPMap.run IPMap.start es) !! tid1
    = Some (IPMap.Returned h1 s) →
  IPMap.calls (IPMap.run IPMap.start es) !! tid2
    = Some (IPMap.Returned h2 s) →
  h1 = h2 ∧
  is_Some (IPMap.heap (IPMap.shared (IPMap.run IPMap.start es)) !! s).
Proof.
  intros H1 H2.
  assert (Hstart : returned_installed IPMap.start) by (intros [|?] ? ?; done).
  pose proof (run_returned_installed es _ Hstart) as Hri.
  pose proof (run_map_sound es _ map_sound_start) as (Ha & _ & _ & Hd).
  apply Hri in H1. apply Hri in H2.
  split; [by eapply Hd|].
  apply lookup_lt_is_Some_2. by eapply Ha.
Qed.

Lemma get_sets_are_allocated_and_not_shared_witness :
  let es := [IPMap.Call "a.example"; IPMap.Call "b.example";
             IPMap.Run 0 []; IPMap.Run 1 [];
             IPMap.Run 1 [Fixtures.ip_8844]; IPMap.Run 0 [Fixtures.ip_8888];
             IPMap.Run 0 []; IPMap.Run 1 [];
             IPMap.Call "a.example"; IPMap.Run 2 []] in
  IPMap.calls (IPMap.run IPMap.start es) !! 0%nat
    = Some (IPMap.Returned "a.example" 1%nat) ∧
  IPMap.calls (IPMap.run IPMap.start es) !! 2%nat
    = Some (IPMap.Returned "a.example" 1%nat) ∧
  is_Some (IPMap.heap (IPMap.shared (IPMap.run IPMap.start es)) !! 1%nat).
Proof.
  cbv zeta.
  match goal with
  | |- ?A ∧ ?B ∧ _ =>
      assert (H1 : A) by (vm_compute; reflexivity);
      assert (H2 : B) by (vm_compute; reflexivity)
  end.
  split; [exact H1|]. split; [exact H2|].
  exact (proj2 (get_sets_are_allocated_and_not_shared _ _ _ _ _ _ H1 H2)).
Defined.

(** X8: a call of [Get] returns: whatever else is scheduled in between,
    once the call itself has been let run three times (once per critical
    section, building the set included), it has returned a set for its
    hostname. *)
Theorem get_returns_after_three_steps (w : IPMap.world)
  (es : list IPMap.event) (tid : nat) (hostname : string) :
  IPMap.calls w !! tid = Some (IPMap.AtRLock hostname) →
  (3 ≤ runs_of tid es)%nat →
  ∃ s, IPMap.calls (IPMap.run w es) !! tid
       = Some (IPMap.Returned hostname s).
Proof.
  intros Hc Hr.
  destruct (run_progress es w tid _ Hc) as (c' & Hc' & Hh & Hs).
  simpl in Hh, Hs. destruct c' as [h|h|h s|h s]; simpl in *; try lia.
  exists s. by rewrite Hc', Hh.
Qed.

Lemma get_returns_after_three_steps_witness :
  ∃ s, IPMap.calls
         (IPMap.run (IPMap.exec IPMap.start (IPMap.Call "example.com"))
            [IPMap.Run 0 []; IPMap.Call "other.example";
             IPMap.Run 0 [Fixtures.ip_8888]; IPMap.Run 1 [];
             IPMap.Run 0 []]) !! 0%nat
       = Some (IPMap.Returned "example.com" s).
Proof.
  apply get_returns_after_three_steps.
  - vm_compute. reflexivity.
  - vm_compute. lia.
Defined.

(** X9: [get] of [package intra] on a hostname it has not seen allocates
    a set holding the deduplicated resolver answer and installs it; a
    second [get] for the hostname returns the same pointer and changes
    nothing, whatever the resolver would answer then. *)
Theorem intra_get_installs_once (mp : IntraIPSet.ipMap) (h : string)
  (r1 r2 : list net.IP) :
  IntraIPSet.m mp !! h = None →
  let '(s, mp1) := IntraIPSet.get mp h r1 in
  IntraIPSet.heap mp1 !! s
    = Some (IntraIPSet.mkIpSet (IntraIPSet.union [] r1) None) ∧
  IntraIPSet.get mp1 h r2 = (s, mp1) ∧
  (∀ p, (p < length (IntraIPSet.heap mp))%nat →
        IntraIPSet.heap mp1 !! p = IntraIPSet.heap mp !! p).
Proof.
  intros Hm. unfold IntraIPSet.get. rewrite Hm. simpl.
  rewrite lookup_insert_eq. split; [|split; [done|]].
  - rewrite lookup_app_r by lia. by rewrite Nat.sub_diag.
  - intros p Hp. by rewrite lookup_app_l.
Qed.

Lemma intra_get_installs_once_witness :
  let mp := IntraIPSet.mkIpMap [] ∅ in
  IntraIPSet.get (IntraIPSet.get mp "dns.google"
                    [Fixtures.ip_8888; Fixtures.ip_8888]).2
    "dns.google" [Fixtures.ip_1111]
  = (0%nat, (IntraIPSet.get mp "dns.google"
               [Fixtures.ip_8888; Fixtures.ip_8888]).2).
Proof.
  cbv zeta.
  pose proof (intra_get_installs_once (IntraIPSet.mkIpMap [] ∅) "dns.google"
                [Fixtures.ip_8888; Fixtures.ip_8888] [Fixtures.ip_1111]
                (lookup_empty _)) as H.
  destruct (IntraIPSet.get (IntraIPSet.mkIpMap [] ∅) "dns.google"
              [Fixtures.ip_8888; Fixtures.ip_8888]) as [s mp1] eqn:E.
  destruct H as (_ & H & _). simpl. rewrite H.
  vm_compute in E. by injection E as <- _.
Defined.

(** ** The transports: rejected queries, the buffer, the summary, the wire *)

(** X10: a query shorter than two bytes is rejected before anything is
    sent: the three transports return a nil response and the error
    "Query length is n" (of status [BadQuery] where there are statuses),
    leave [q] alone, and report no server; the answer does not depend on
    the HTTP client. *)
Theorem short_query_is_rejected (t1 : Doh.transport)
  (t2 : DohStatus.transport) (t3 : DohClassified.transport)
  (q : list byte) :
  (length q < 2)%nat →
  let e := Errorf "Query length is %d" [ArgInt (Z.of_nat (length q))] in
  Doh.Query t1 q = mkOutcome q None (Some e) ∧
  DohStatus.Query t2 q
    = (mkOutcome q None (Some e),
       if DohStatus.listener t2
       then Some (DohStatus.mkSummary q None "" DohStatus.BadQuery)
       else None) ∧
  DohClassified.transport_Query t3 q
    = (mkOutcome q None (Some (QueryError DohClassified.BadQuery e)),
       if DohClassified.listener t3
       then Some (DohClassified.mkSummary q None "" DohClassified.BadQuery)
       else None).
Proof.
  intros Hq. cbv zeta.
  unfold Doh.Query, DohStatus.Query, DohStatus.doQuery,
    DohClassified.transport_Query, DohClassified.doQuery.
  rewrite !bool_decide_eq_true_2 by done. done.
Qed.

Lemma short_query_is_rejected_witness :
  err (DohClassified.Query
         (DohClassified.mkTransport "https://dns.google/dns-query"
            "dns.google" 443 [Fixtures.ip_8888]
            (Fixtures.answering [x01; x02; x03]) true) [x07])
  = Some (QueryError DohClassified.BadQuery
            (Errorf "Query length is %d" [ArgInt 1])).
Proof.
  pose proof (short_query_is_rejected
                (Doh.mkTransport "" 443 [] Fixtures.unreachable)
                (DohStatus.mkTransport "" 443 [] Fixtures.unreachable false)
                (DohClassified.mkTransport "https://dns.google/dns-query"
                   "dns.google" 443 [Fixtures.ip_8888]
                   (Fixtures.answering [x01; x02; x03]) true) [x07]
                ltac:(simpl; lia)) as (_ & _ & H).
  exact (f_equal (λ x, err x.1) H).
Defined.

(** X11: a call of [Query] that returns no error gives the caller's
    buffer back byte for byte (first transport and classified
    transport). *)
Theorem successful_query_restores_buffer (t1 : Doh.transport)
  (t3 : DohClassified.transport) (q : list byte) :
  (err (Doh.Query t1 q) = None → q_after (Doh.Query t1 q) = q) ∧
  (err (DohClassified.Query t3 q) = None →
   q_after (DohClassified.Query t3 q) = q).
Proof.
  split.
  - unfold Doh.Query. case_bool_decide as Hq; [done|].
    destruct (http.NewRequest _ _ _ _) as [req|e]; [|done].
    destruct (http.Do _ _).2 as [resp|e]; [|done].
    case_bool_decide; [done|].
    destruct (http.ReadAll resp) as [body rerr]; simpl. intros _.
    apply set01_restore. lia.
  - simpl. unfold DohClassified.transport_Query.
    pose proof (classified_success_restores t3 q) as H.
    destruct (DohClassified.doQuery t3 q) as [o server] eqn:E. simpl in *.
    intros He. apply H; [|done].
    destruct (decide (2 ≤ length q)%nat) as [|Hn]; [done|].
    unfold DohClassified.doQuery in E.
    rewrite bool_decide_eq_true_2 in E by lia.
    injection E as <- _. done.
Qed.

Lemma successful_query_restores_buffer_witness :
  let t3 := DohClassified.mkTransport "https://dns.google/dns-query"
              "dns.google" 443 [Fixtures.ip_8888]
              (Fixtures.answering [x00; x00; x81; x80]) false in
  q_after (DohClassified.Query t3 [x6f; xde; x01; x00])
  = [x6f; xde; x01; x00].
Proof.
  cbv zeta.
  apply (successful_query_restores_buffer
           (Doh.mkTransport "" 443 [] Fixtures.unreachable)).
  vm_compute. reflexivity.
Defined.

(** X12: when the classified transport returns an error for a query of
    two bytes or more, the caller's buffer has its first two bytes zero
    and the rest as before, and that is the query the listener's summary
    carries. *)
Theorem failed_query_leaves_zero_id (t : DohClassified.transport)
  (q : list byte) :
  (2 ≤ length q)%nat →
  is_Some (err (DohClassified.Query t q)) →
  q_after (DohClassified.Query t q) = x00 :: x00 :: drop 2 q ∧
  (DohClassified.listener t = true →
   ∃ sm, (DohClassified.transport_Query t q).2 = Some sm ∧
         DohClassified.Query_ sm = x00 :: x00 :: drop 2 q).
Proof.
  intros Hq He. simpl in *. unfold DohClassified.transport_Query in *.
  pose proof (classified_failure_zeroes t q Hq) as H.
  destruct (DohClassified.doQuery t q) as [o server]. simpl in *.
  assert (q_after o = x00 :: x00 :: drop 2 q) as Hz.
  { rewrite H by done. destruct q as [|a [|b q]]; simpl in *; done || lia. }
  split; [done|]. intros ->. eexists. split; [done|]. done.
Qed.

Lemma failed_query_leaves_zero_id_witness :
  let t := DohClassified.mkTransport "https://dns.google/dns-query"
             "dns.google" 443 [Fixtures.ip_8888] Fixtures.unreachable true in
  q_after (DohClassified.Query t [xab; xcd; x01; x00])
  = [x00; x00; x01; x00].
Proof.
  cbv zeta.
  match goal with
  | |- q_after (DohClassified.Query ?t ?q) = _ =>
      destruct (failed_query_leaves_zero_id t q) as [H _]
  end.
  - simpl. lia.
  - vm_compute. eexists. reflexivity.
  - exact H.
Defined.

Lemma classified_error_status
  (t : DohClassified.transport) (q : list byte) :
  err (DohClassified.Query t q) = None ∨
  ∃ st e, err (DohClassified.Query t q) = Some (QueryError st e) ∧
          st ≠ DohClassified.Complete.
Proof.
  simpl. unfold DohClassified.transport_Query, DohClassified.doQuery.
  case_bool_decide; [right; by eexists _, _|].
  destruct (http.NewRequest _ _ _ _) as [req|e]; [|right; by eexists _, _].
  destruct (http.Do _ _) as [gotConn [resp|e]]; [|right; by eexists _, _].
  case_bool_decide; [right; by eexists _, _|].
  destruct (http.ReadAll resp) as [body rerr]; simpl. by left.
Qed.

(** X13: the summary the classified transport hands to its listener
    agrees with what [Query] returns: there is one exactly if a listener
    is registered; it carries the returned response and the caller's
    buffer; its status is [Complete] exactly if no error is returned, and
    otherwise it is the status inside the returned error. *)
Theorem summary_agrees_with_result (t : DohClassified.transport)
  (q : list byte) :
  let o := (DohClassified.transport_Query t q).1 in
  (DohClassified.listener t = false →
   (DohClassified.transport_Query t q).2 = None) ∧
  (DohClassified.listener t = true →
   ∃ sm, (DohClassified.transport_Query t q).2 = Some sm ∧
         DohClassified.Response sm = response o ∧
         DohClassified.Query_ sm = q_after o ∧
         (DohClassified.Status sm = DohClassified.Complete ↔ err o = None) ∧
         (∀ st e, err o = Some (QueryError st e) →
                  DohClassified.Status sm = st)).
Proof.
  cbv zeta. unfold DohClassified.transport_Query.
  destruct (DohClassified.doQuery t q) as [o server] eqn:E. simpl.
  split; [by intros ->|]. intros ->. eexists. split; [done|]. simpl.
  split; [done|]. split; [done|].
  assert (err o = None ∨
          ∃ st e, err o = Some (QueryError st e) ∧
                  st ≠ DohClassified.Complete) as [->|(st & e & -> & Hst)].
  { pose proof (classified_error_status t q) as H.
    simpl in H. unfold DohClassified.transport_Query in H.
    rewrite E in H. simpl in H. exact H. }
  - split; [done|]. intros st e [=].
  - simpl. split; [split; done|]. by intros ? ? [= <- _].
Qed.

(** X14: in the status-code transport ([part_002]) a server answer other
    than 200 is not an error for the caller: [Query] returns a nil
    response together with a nil error (the status [HTTPError] only
    reaches the listener), the buffer keeps its zeroed ID, and
    [forwardQuery] then sends a frame of length zero instead of closing
    the connection. *)
Theorem status_transport_hides_http_error (t : DohStatus.transport)
  (q : list byte) (req : http.Request) (gotConn : option string)
  (resp : http.Response) :
  (2 ≤ length q)%nat →
  http.NewRequest (DohStatus.client t) "POST" (DohStatus.url t)
    (slices.set01 q x00 x00) = Ok req →
  http.Do (DohStatus.client t) (with_dns_headers req) = (gotConn, Ok resp) →
  http.StatusCode resp ≠ 200 →
  DohStatus.Query t q
    = (mkOutcome (slices.set01 q x00 x00) None None,
       if DohStatus.listener t
       then Some (DohStatus.mkSummary (slices.set01 q x00 x00) None
                    (default "" gotConn) DohStatus.HTTPError)
       else None) ∧
  ∀ c, (∀ b, io.outcome c b = (Z.of_nat (length b), None)) →
       io.ops (DohStatus.forwardQuery t q c).2
       = io.ops c ++
         (if io.vectored c then [io.OpWritev [[x00; x00]; []]]
          else [io.OpWrite [x00; x00]; io.OpWrite []]).
Proof.
  intros Hq Hreq Hdo Hst.
  assert (DohStatus.doQuery t q
          = (mkOutcome (slices.set01 q x00 x00) None None,
             (DohStatus.HTTPError, default "" gotConn))) as Hd.
  { unfold DohStatus.doQuery. rewrite bool_decide_eq_false_2 by lia.
    rewrite Hreq. unfold with_dns_headers in Hdo.
    unfold DohStatus.mimetype. rewrite Hdo.
    by rewrite bool_decide_eq_true_2. }
  split.
  - unfold DohStatus.Query. by rewrite Hd.
  - intros c Hc. unfold DohStatus.forwardQuery, DohStatus.Query.
    rewrite Hd. simpl.
    unfold io.Buffers_WriteTo. destruct (io.vectored c) eqn:Hv.
    + rewrite Hc. simpl. done.
    + simpl. rewrite !Hc. simpl. by rewrite <- app_assoc.
Qed.

Lemma status_transport_hides_http_error_witness :
  let t := DohStatus.mkTransport "https://dns.google/dns-query" 443
             [Fixtures.ip_8888] Fixtures.refusing true in
  DohStatus.Query t [xab; xcd; x01; x00]
  = (mkOutcome [x00; x00; x01; x00] None None,
     Some (DohStatus.mkSummary [x00; x00; x01; x00] None "8.8.8.8"
             DohStatus.HTTPError)).
Proof.
  cbv zeta.
  eapply (proj1 (status_transport_hides_http_error
            (DohStatus.mkTransport "https://dns.google/dns-query" 443
               [Fixtures.ip_8888] Fixtures.refusing true)
            [xab; xcd; x01; x00] _ (Some "8.8.8.8")
            (http.mkResponse 503 "503 Service Unavailable" ([], None))
            ltac:(simpl; lia) eq_refl eq_refl ltac:(simpl; lia))).
Defined.

(** X15: what the classified transport asks the server is one request:
    a POST to its URL with the headers [Content-Type] and [Accept]
    [application/dns-message] and [User-Agent: Intra], whose body is the
    query with its ID set to zero.  Two transports whose servers answer
    that request alike give the same result, outcome and summary. *)
Theorem query_is_sent_with_zero_id (t1 t2 : DohClassified.transport)
  (q : list byte) :
  (2 ≤ length q)%nat →
  DohClassified.url t1 = DohClassified.url t2 →
  DohClassified.listener t1 = DohClassified.listener t2 →
  (∀ method url body,
     http.NewRequest (DohClassified.client t1) method url body
     = Ok (http.mkRequest method url [] body)) →
  (∀ method url body,
     http.NewRequest (DohClassified.client t2) method url body
     = Ok (http.mkRequest method url [] body)) →
  http.Do (DohClassified.client t1) (wire_request (DohClassified.url t1) q)
  = http.Do (DohClassified.client t2) (wire_request (DohClassified.url t1) q) →
  DohClassified.transport_Query t1 q = DohClassified.transport_Query t2 q.
Proof.
  intros Hq Hurl Hl Hn1 Hn2 Hdo.
  unfold DohClassified.transport_Query, DohClassified.doQuery.
  rewrite bool_decide_eq_false_2 by lia.
  rewrite Hn1, Hn2, <- Hurl, <- Hl.
  assert (slices.set01 q x00 x00 = x00 :: x00 :: drop 2 q) as ->.
  { destruct q as [|a [|b q]]; simpl in *; done || lia. }
  change (http.Header_Set _ "User-Agent" "Intra")
    with (wire_request (DohClassified.url t1) q).
  by rewrite Hdo.
Qed.

Lemma query_is_sent_with_zero_id_witness :
  let picky := http.mkClient Fixtures.NewRequest
      (λ req, if bool_decide (http.Body req = [x00; x00; x01; x00])
              then (Some "8.8.8.8",
                    Ok (http.mkResponse 200 "200 OK" ([x00; x00; x81], None)))
              else (None, Err (LibError "unexpected request"))) in
  let t1 := DohClassified.mkTransport "https://dns.google/dns-query"
              "dns.google" 443 [Fixtures.ip_8888] picky false in
  let t2 := DohClassified.mkTransport "https://dns.google/dns-query"
              "dns.google" 443 [Fixtures.ip_8888]
              (Fixtures.answering [x00; x00; x81]) false in
  DohClassified.transport_Query t1 [xab; xcd; x01; x00]
  = DohClassified.transport_Query t2 [xab; xcd; x01; x00].
Proof.
  cbv zeta. apply query_is_sent_with_zero_id; try done.
  simpl. lia.
Defined.

(** ** The forwarder: frames out, frames in *)

Section ForwarderMore.
Import slices.

Lemma frame_header (n : Z) :
  0 ≤ n ≤ MaxUint16 →
  byte_of_Z (Z.shiftr (uint16 n) 8) = byte_of_Z (n / 256) ∧
  byte_of_Z (uint16 n) = byte_of_Z n.
Proof.
  unfold MaxUint16, uint16. intros Hn.
  rewrite Z.mod_small by lia. by rewrite Z.shiftr_div_pow2 by lia.
Qed.

Lemma Uint16_frame (msg : list byte) :
  Z.of_nat (length msg) ≤ MaxUint16 →
  Uint16 (take 2 (frame msg)) = Z.of_nat (length msg).
Proof.
  intros Hn. unfold frame. simpl.
  assert (Hb : 0 ≤ Z.of_nat (length msg) ≤ MaxUint16) by lia.
  pose proof (Uint16_PutUint16 [x00; x00] _ ltac:(simpl; lia) Hb) as Hu.
  destruct (frame_header _ Hb) as [H1 H2].
  unfold PutUint16, set01 in Hu. simpl in Hu. by rewrite H1, H2 in Hu.
Qed.


Lemma Accept_S (fuel : nat) (r : io.Reader) :
  DohClassified.Accept (S fuel) r
  = let '(r1, (qlbuf, err)) := io.Read r 2 in
    match err with
    | Some _ => Some ([], r1)
    | None =>
        if bool_decide (length qlbuf ≠ 2%nat) then Some ([], r1)
        else
          let qlen := Uint16 qlbuf in
          let '(r2, (q, err)) := io.Read r1 (Z.to_nat qlen) in
          if bool_decide (uint16 (Z.of_nat (length q)) ≠ qlen ∨ is_Some err)
          then Some ([], r2)
          else
            rest ← DohClassified.Accept fuel r2;
            Some (q :: rest.1, rest.2)
    end.
Proof. reflexivity. Qed.



Lemma Read_pending (r r' : io.Reader) (k : nat) (data : list byte)
  (e : option error) :
  io.Read r k = (r', (data, e)) →
  (pending r' + length data)%nat = pending r ∧ (length data ≤ k)%nat.
Proof.
  unfold io.Read. case_bool_decide as Hk.
  - intros [= <- <- <-]. simpl. lia.
  - destruct r as [|[b|e'] rest].
    + intros [= <- <- <-]. unfold pending. simpl. lia.
    + case_bool_decide as Hb; intros [= <- <- <-]; unfold pending; simpl.
      * lia.
      * rewrite length_drop, length_take. lia.
    + intros [= <- <- <-]. unfold pending. simpl. lia.
Qed.

End ForwarderMore.



(** X17: the forwarder of [doh.go], given a connection that is not one
    of package [net]'s own and a successful query with a response of at
    most 65535 bytes, issues the two-byte length prefix as a write of its
    own.  If that write fails the response is not written and the
    connection is closed; otherwise the response follows as a second
    write, after which the connection is either left open or closed. *)
Theorem first_forwarder_writes_prefix_then_response (t : Doh.transport)
  (q : list byte) (c : io.Conn) (resp : list byte) :
  err (Doh.Query t q) = None →
  response (Doh.Query t q) = Some resp →
  Z.of_nat (length resp) ≤ slices.MaxUint16 →
  io.vectored c = false →
  let prefix := take 2 (frame resp) in
  let after := io.ops (Doh.forwardQuery t q c).2 in
  (∀ n e, io.outcome c prefix = (n, Some e) →
          after = io.ops c ++ [io.OpWrite prefix; io.OpClose]) ∧
  (∀ n, io.outcome c prefix = (n, None) →
        ∃ tail, after = io.ops c ++ [io.OpWrite prefix; io.OpWrite resp]
                          ++ tail ∧
                (tail = [] ∨ tail = [io.OpClose])).
Proof.
  intros He Hr Hlen Hv. cbv zeta. unfold Doh.forwardQuery.
  rewrite He, Hr. simpl default.
  rewrite bool_decide_eq_false_2 by lia.
  assert (slices.PutUint16 (slices.make 2)
            (slices.uint16 (Z.of_nat (length resp)))
          = take 2 (frame resp)) as ->.
  { unfold frame, slices.PutUint16, slices.make, slices.set01. simpl.
    by destruct (frame_header (Z.of_nat (length resp)) ltac:(lia))
      as [-> ->]. }
  set (prefix := take 2 (frame resp)).
  unfold io.Buffers_WriteTo. rewrite Hv. cbn [io.WriteEach io.Write].
  split.
  - intros n e Ho. rewrite Ho. simpl. by rewrite <- app_assoc.
  - intros n Ho. rewrite Ho. simpl.
    destruct (io.outcome c resp) as [n2 [e2|]]; simpl.
    + exists [io.OpClose]. split; [|by right].
      by rewrite <- !app_assoc.
    + case_bool_decide; simpl.
      * exists [io.OpClose]. split; [|by right]. by rewrite <- !app_assoc.
      * exists []. split; [|by left]. by rewrite <- !app_assoc.
Qed.

Lemma first_forwarder_writes_prefix_then_response_witness :
  let t := Doh.mkTransport "https://dns.google/dns-query" 443
             [Fixtures.ip_8888]
             (Fixtures.answering [x05; x04; x03; x02; x01]) in
  ∃ tail,
    io.ops (Doh.forwardQuery t [x01; x02; x03; x04; x05] Fixtures.fakeConn).2
    = io.ops Fixtures.fakeConn
      ++ [io.OpWrite (take 2 (frame [x01; x02; x03; x02; x01]));
          io.OpWrite [x01; x02; x03; x02; x01]] ++ tail ∧
    (tail = [] ∨ tail = [io.OpClose]).
Proof.
  cbv zeta.
  refine (proj2 (first_forwarder_writes_prefix_then_response
            (Doh.mkTransport "https://dns.google/dns-query" 443
               [Fixtures.ip_8888]
               (Fixtures.answering [x05; x04; x03; x02; x01]))
            [x01; x02; x03; x04; x05] Fixtures.fakeConn
            [x01; x02; x03; x02; x01] _ _ _ _) 2 _).
  - vm_compute. reflexivity.
  - vm_compute. reflexivity.
  - vm_compute. discriminate.
  - reflexivity.
  - vm_compute. reflexivity.
Defined.



(** X19: [Accept] reads a query with a single [Read].  If the bytes of
    a query arrive in two segments, the first read is short: the query is
    not handed to a worker, the loop returns (and the connection is
    closed) with the rest of the query unread. *)
Theorem accept_drops_segmented_query (q : list byte) (n fuel : nat)
  (rest : io.Reader) :
  Z.of_nat (length q) ≤ slices.MaxUint16 →
  (n < length q)%nat →
  DohClassified.Accept (S fuel)
    (io.Data (take 2 (frame q)) :: io.Data (take n q)
       :: io.Data (drop n q) :: rest)
  = Some ([], io.Data (drop n q) :: rest).
Proof.
  intros Hq Hn. rewrite Accept_S.
  unfold io.Read at 1. rewrite bool_decide_eq_false_2 by lia.
  rewrite bool_decide_eq_true_2 by (simpl; lia).
  rewrite bool_decide_eq_false_2 by (simpl; lia). cbv zeta.
  rewrite Uint16_frame by done. rewrite Nat2Z.id.
  unfold io.Read. rewrite bool_decide_eq_false_2 by lia.
  rewrite bool_decide_eq_true_2 by (rewrite length_take; lia).
  rewrite bool_decide_eq_true_2; [done|].
  left. rewrite length_take.
  unfold slices.uint16, slices.MaxUint16 in *.
  rewrite Z.mod_small by lia. lia.
Qed.

Lemma accept_drops_segmented_query_witness :
  DohClassified.Accept 5
    [io.Data [x00; x05]; io.Data [x01; x02]; io.Data [x03; x04; x05]]
  = Some ([], [io.Data [x03; x04; x05]]).
Proof.
  apply (accept_drops_segmented_query [x01; x02; x03; x04; x05] 2 4 []).
  - vm_compute. discriminate.
  - simpl. lia.
Defined.



(** X21: [Accept] returns, and it hands on no more than arrived.  With
    more iterations allowed than bytes are pending, the loop returns; the
    queries handed to workers, two bytes of length for each, and what is
    left unread together are at most what was pending. *)
Theorem accept_returns_and_conserves_bytes (fuel : nat) (r : io.Reader) :
  (pending r < fuel)%nat →
  ∃ qs r', DohClassified.Accept fuel r = Some (qs, r') ∧
           (2 * length qs + sum_list (length <$> qs) + pending r'
            ≤ pending r)%nat.
Proof.
  revert r. induction fuel as [|fuel IH]; intros r Hf; [lia|].
  rewrite Accept_S.
  destruct (io.Read r 2) as [r1 [qlbuf e1]] eqn:E1.
  apply Read_pending in E1 as [Hp1 Hl1].
  destruct e1 as [e1|].
  { eexists [], r1. split; [done|]. simpl. lia. }
  case_bool_decide as H2.
  { eexists [], r1. split; [done|]. simpl. lia. }
  cbv zeta.
  destruct (io.Read r1 _) as [r2 [q e2]] eqn:E2.
  apply Read_pending in E2 as [Hp2 Hl2].
  case_bool_decide as Hq.
  { eexists [], r2. split; [done|]. simpl. lia. }
  destruct (IH r2) as (qs & r' & -> & Hc); [lia|].
  eexists (q :: qs), r'. split; [done|].
  assert (sum_list (length <$> q :: qs)
          = (length q + sum_list (length <$> qs))%nat) as -> by done.
  rewrite length_cons. lia.
Qed.

Lemma accept_returns_and_conserves_bytes_witness :
  ∃ qs r',
    DohClassified.Accept 8
      [io.Data [x00; x02; x0a; x0b; x00]; io.Fail (LibError "reset")]
    = Some (qs, r') ∧
    (2 * length qs + sum_list (length <$> qs) + pending r'
     ≤ pending [io.Data [x00; x02; x0a; x0b; x00];
                io.Fail (LibError "reset")])%nat.
Proof.
  apply accept_returns_and_conserves_bytes. vm_compute. lia.
Defined.

(** ** Construction and dialing *)

Section ConstructMore.
Import net.

Lemma fold_keep_new_nonempty (l acc : list IP) :
  l ≠ [] → fold_left keep_new l acc ≠ [].
Proof.
  destruct l as [|x l]; [done|]. intros _. simpl.
  destruct (fold_keep_new_prefix l (keep_new acc x)) as [new ->].
  unfold keep_new. destruct (existsb _ acc) eqn:He.
  - destruct acc; [done|]. done.
  - by destruct acc.
Qed.

Lemma flat_map_nil_iff (LookupIP : string → list IP) (fs : list string) :
  flat_map LookupIP fs = [] ↔ ∀ f, f ∈ fs → LookupIP f = [].
Proof.
  induction fs as [|f fs IH]; simpl.
  - split; [intros _ f Hf; by apply elem_of_nil in Hf|done].
  - split.
    + intros [Hf Hfs]%app_eq_nil f' [->|Hin]%elem_of_cons; [done|].
      by apply IH.
    + intros H. rewrite (H f) by (apply elem_of_cons; by left). simpl.
      apply IH. intros f' Hf'. apply H, elem_of_cons. by right.
Qed.

Lemma dial_ips_first (Dial : IP → Z → result IP) (p : Z) (l : list IP) :
  ∀ (i : nat) (ip conn : IP) (err0 : option error),
    l !! i = Some ip →
    Dial ip p = Ok conn →
    (∀ j ip', (j < i)%nat → l !! j = Some ip' → ∃ e, Dial ip' p = Err e) →
    DohClassified.dial_ips Dial p l err0 = (Some conn, None).
Proof.
  induction l as [|x l IH]; intros i ip conn err0 Hi Hok Hfail; [done|].
  destruct i as [|i]; simpl in *.
  - injection Hi as ->. by rewrite Hok.
  - destruct (Hfail 0%nat x ltac:(lia) eq_refl) as [e ->].
    apply (IH i ip); [done|done|].
    intros j ip' Hj Hl. apply (Hfail (S j)); [lia|done].
Qed.

Lemma dial_ips_all_fail (Dial : IP → Z → result IP) (p : Z) (l : list IP) :
  ∀ (err0 : option error) (ip : IP) (e : error),
    last l = Some ip →
    Dial ip p = Err e →
    (∀ ip', ip' ∈ l → ∃ e', Dial ip' p = Err e') →
    DohClassified.dial_ips Dial p l err0 = (None, Some e).
Proof.
  induction l as [|x l IH]; intros err0 ip e Hlast He Hall; [done|].
  simpl. destruct (Hall x ltac:(apply elem_of_cons; by left)) as [e' Hx].
  rewrite Hx. destruct l as [|y l].
  - simpl in *. injection Hlast as ->. congruence.
  - apply (IH _ ip); [done|done|].
    intros ip' Hin. apply Hall, elem_of_cons. by right.
Qed.

Lemma promoted_Permutation (addrs : list IP) (i : nat) (a : IP) :
  addrs !! i = Some a → promoted addrs i a ≡ₚ addrs.
Proof.
  intros Ha. unfold promoted.
  rewrite <- (take_drop_middle addrs i a Ha) at 3.
  by rewrite Permutation_middle.
Qed.

Lemma dial_from_total (Dial : IP → Z → result IP) (p : Z) (addrs : list IP) :
  ∀ (rest : list IP) (i : nat) (e0 : option error),
    drop i addrs = rest →
    ∃ l r, Doh.dial_from Dial p addrs addrs i rest (None, e0) = Some (l, r) ∧
           l ≡ₚ addrs ∧
           (r.1 = None → l = addrs ∧ (rest ≠ [] → is_Some r.2)) ∧
           (is_Some r.1 → r.2 = None).
Proof.
  induction rest as [|addr rest IH]; intros i e0 Hd; simpl.
  - exists addrs, (None, e0). split; [done|]. split; [done|].
    split; [done|]. by intros [? [=]].
  - assert (addrs !! i = Some addr) as Ha.
    { rewrite <- (Nat.add_0_r i), <- lookup_drop, Hd. done. }
    destruct (Dial addr p) as [conn|e] eqn:E.
    + destruct (decide (i = 0%nat)) as [->|Hi].
      * exists addrs, (Some conn, None).
        unfold Doh.preferAddr. rewrite bool_decide_eq_true_2 by done.
        simpl. split; [done|]. split; [done|]. split; [done|done].
      * rewrite (preferAddr_promotes addrs addrs i addr) by (done || lia).
        simpl. exists (promoted addrs i addr), (Some conn, None).
        split; [done|]. split; [by apply promoted_Permutation|].
        split; [done|done].
    + destruct rest as [|x rest].
      { exists addrs, (None, Some e). simpl. split; [done|].
        split; [done|]. split; [|by intros [? [=]]].
        intros _. split; [done|]. intros _. by eexists. }
      destruct (IH (S i) (Some e)) as (l & r & -> & Hp & Hn & Hs).
      { by rewrite (drop_S _ _ _ Ha) in Hd; injection Hd. }
      exists l, r. split; [done|]. split; [done|]. split; [|done].
      intros Hr. destruct (Hn Hr) as [-> Hrest]. split; [done|].
      intros _. by apply Hrest.
Qed.
End ConstructMore.

(** X22: how the constructor of the classified transport ends, for a URL
    that parses.  A scheme other than [https] is refused with "Bad
    scheme"; a port that does not parse is refused with the parser's
    error; if neither the host nor any fallback resolves to an address
    the result is "No IP addresses"; otherwise the transport is built,
    with the URL as given, the host as domain, the explicit port or 443,
    and a non-empty address list. *)
Theorem constructor_outcomes
  (url_Parse : string → result (string * string * string))
  (Atoi : string → result Z) (LookupIP : string → list net.IP)
  (cl : http.Client) (rawurl : string) (fs : list string) (listener : bool)
  (scheme h portStr : string) :
  url_Parse rawurl = Ok (scheme, h, portStr) →
  let r := DohClassified.NewDoHTransport url_Parse Atoi LookupIP cl rawurl
             fs listener in
  (scheme ≠ "https" → r = Err (Errorf "Bad scheme: %s" [ArgStr scheme])) ∧
  (scheme = "https" →
   (∀ e, portStr ≠ "" → Atoi portStr = Err e → r = Err e) ∧
   (∀ port,
      (portStr = "" ∧ port = 443) ∨ (portStr ≠ "" ∧ Atoi portStr = Ok port) →
      (LookupIP h = [] → (∀ f, f ∈ fs → LookupIP f = []) →
       r = Err (Errorf "No IP addresses for %s" [ArgStr h])) ∧
      (LookupIP h ≠ [] ∨ (∃ f, f ∈ fs ∧ LookupIP f ≠ []) →
       ∃ t, r = Ok t ∧
            DohClassified.url t = rawurl ∧ DohClassified.domain t = h ∧
            DohClassified.port t = port ∧
            DohClassified.listener t = listener ∧
            DohClassified.ips t ≠ []))).
Proof.
  intros Hu. cbv zeta. unfold DohClassified.NewDoHTransport.
  rewrite Hu. simpl. split.
  - intros Hs. by rewrite bool_decide_eq_true_2.
  - intros ->. rewrite bool_decide_eq_false_2 by (intros H; by apply H).
    split.
    + intros e Hp He. destruct portStr as [|a portStr]; [done|].
      rewrite (bool_decide_eq_true_2
                 (0 < String.length (String a portStr))%nat)
        by (simpl; lia).
      by rewrite He.
    + intros port Hport.
      assert ((if bool_decide (0 < String.length portStr)%nat
               then Atoi portStr else Ok 443) = Ok port) as ->.
      { destruct Hport as [[-> ->]|[Hp Ha]]; [done|].
        destruct portStr as [|a portStr]; [done|].
        by rewrite bool_decide_eq_true_2 by (simpl; lia). }
      simpl. rewrite adds_fold. split.
      * intros Hh Hfs. rewrite Hh.
        apply flat_map_nil_iff in Hfs. rewrite Hfs. done.
      * intros Hsome.
        assert (fold_left keep_new (flat_map LookupIP fs) (LookupIP h) ≠ [])
          as Hne.
        { destruct Hsome as [Hh|(f & Hf & Hl)].
          - destruct (fold_keep_new_prefix (flat_map LookupIP fs)
                        (LookupIP h)) as [new ->].
            by destruct (LookupIP h).
          - apply fold_keep_new_nonempty. intros Hnil.
            by apply (proj1 (flat_map_nil_iff LookupIP fs) Hnil f) in Hf. }
        rewrite bool_decide_eq_false_2.
        2:{ intros Hl. by apply nil_length_inv in Hl. }
        eexists. split; [done|]. done.
Qed.

Lemma constructor_outcomes_witness :
  DohClassified.NewDoHTransport Fixtures.url_Parse Fixtures.Atoi
    Fixtures.LookupIP (Fixtures.answering []) "ftp://www.example.com" []
    false
  = Err (Errorf "Bad scheme: %s" [ArgStr "ftp"]).
Proof.
  apply (proj1 (constructor_outcomes Fixtures.url_Parse Fixtures.Atoi
                  Fixtures.LookupIP (Fixtures.answering [])
                  "ftp://www.example.com" [] false
                  "ftp" "www.example.com" "" eq_refl)).
  vm_compute. discriminate.
Defined.

(** X23: the constructor of the first transport ([doh.go]) stores, when
    it succeeds, every resolved address in the order of resolution: those
    of the URL host, then those of each fallback in turn, with nothing
    dropped; the list is not empty, and the port is 443 if the URL names
    none. *)
Theorem first_constructor_concatenates
  (url_Parse : string → result (string * string * string))
  (Atoi : string → result Z) (LookupIP : string → list net.IP)
  (cl : http.Client) (rawurl : string) (fs : list string)
  (t : Doh.transport) :
  Doh.NewDoHTransport url_Parse Atoi LookupIP cl rawurl fs = Ok t →
  ∃ h portStr,
    url_Parse rawurl = Ok ("https", h, portStr) ∧
    Doh.addrs t = LookupIP h ++ flat_map LookupIP fs ∧
    Doh.addrs t ≠ [] ∧
    Doh.url t = rawurl ∧
    (portStr = "" → Doh.port t = 443).
Proof.
  unfold Doh.NewDoHTransport.
  destruct (url_Parse rawurl) as [[[scheme h] portStr]|e]; simpl; [|done].
  case_bool_decide as Hs; [done|].
  assert (scheme = "https") as ->.
  { destruct (decide (scheme = "https")); done. }
  destruct (if bool_decide (0 < String.length portStr)%nat
            then Atoi portStr else Ok 443) as [port|e] eqn:Ep; simpl; [|done].
  rewrite addAddrs_fold. unfold Doh.addAddrs. simpl.
  destruct (bool_decide (length (LookupIP h ++ flat_map LookupIP fs) = 0%nat))
    eqn:Hl; [done|].
  apply bool_decide_eq_false in Hl. intros [= <-]. simpl.
  exists h, portStr. split; [done|]. split; [done|].
  split; [|split; [done|]].
  - intros Hnil. apply Hl. by rewrite Hnil.
  - intros ->. simpl in Ep. by injection Ep.
Qed.

Lemma first_constructor_concatenates_witness :
  ∃ t,
    Doh.NewDoHTransport Fixtures.url_Parse Fixtures.Atoi Fixtures.LookupIP
      (Fixtures.answering []) "https://dns.google/dns-query"
      ["1.1.1.1"; "8.8.8.8"] = Ok t ∧
    Doh.addrs t = [Fixtures.ip_8888; Fixtures.ip_8844; Fixtures.ip_1111;
                   Fixtures.ip_8888] ∧
    Doh.port t = 443.
Proof.
  eexists. split; [vm_compute; reflexivity|]. split; [reflexivity|].
  match goal with
  | |- Doh.port ?t = 443 =>
      destruct (first_constructor_concatenates Fixtures.url_Parse
                  Fixtures.Atoi Fixtures.LookupIP (Fixtures.answering [])
                  "https://dns.google/dns-query" ["1.1.1.1"; "8.8.8.8"] t)
        as (h & portStr & Hu & _ & _ & _ & Hp)
  end.
  - vm_compute. reflexivity.
  - apply Hp. vm_compute in Hu. by injection Hu.
Defined.

(** X24: [dial] of the classified transport, asked for the configured
    domain, connects to the first address of the list, in list order,
    that the dialer reaches; if the dialer reaches none of them, it
    returns no connection and the error of the last address.  Asked for
    another host, it resolves and dials that host and does not use the
    list. *)
Theorem dial_takes_first_reachable_address
  (SplitHostPort : string → string)
  (ResolveTCPAddr : string → string → result (net.IP * Z))
  (Dial : net.IP → Z → result net.IP)
  (t : DohClassified.transport) (network addr : string) :
  let r := DohClassified.dial SplitHostPort ResolveTCPAddr Dial t network
             addr in
  (SplitHostPort addr = DohClassified.domain t →
   (∀ i ip conn,
      DohClassified.ips t !! i = Some ip →
      Dial ip (DohClassified.port t) = Ok conn →
      (∀ j ip', (j < i)%nat → DohClassified.ips t !! j = Some ip' →
                ∃ e, Dial ip' (DohClassified.port t) = Err e) →
      r = (Some conn, None)) ∧
   (∀ ip e,
      last (DohClassified.ips t) = Some ip →
      Dial ip (DohClassified.port t) = Err e →
      (∀ ip', ip' ∈ DohClassified.ips t →
              ∃ e', Dial ip' (DohClassified.port t) = Err e') →
      r = (None, Some e))) ∧
  (SplitHostPort addr ≠ DohClassified.domain t →
   r = match ResolveTCPAddr network addr with
       | Err e => (None, Some e)
       | Ok (ip, tcpport) =>
           match Dial ip tcpport with
           | Ok conn => (Some conn, None)
           | Err e => (None, Some e)
           end
       end).
Proof.
  cbv zeta. unfold DohClassified.dial. split.
  - intros Hd. rewrite bool_decide_eq_false_2 by (intros H; by apply H).
    split.
    + intros i ip conn. apply dial_ips_first.
    + intros ip e. apply dial_ips_all_fail.
  - intros Hd. by rewrite bool_decide_eq_true_2.
Qed.

Lemma dial_takes_first_reachable_address_witness :
  let Dial (ip : net.IP) (port : Z) :=
    if bool_decide (ip = Fixtures.ip_8888)
    then Err (LibError "connection refused") else Ok ip in
  let t := DohClassified.mkTransport "https://dns.google/dns-query"
             "dns.google" 443
             [Fixtures.ip_8888; Fixtures.ip_8844; Fixtures.ip_1111]
             (Fixtures.answering []) false in
  DohClassified.dial (λ _, "dns.google") (λ _ _, Err (LibError "unused"))
    Dial t "tcp" "dns.google:443"
  = (Some Fixtures.ip_8844, None).
Proof.
  cbv zeta.
  match goal with
  | |- DohClassified.dial ?split ?resolve ?dial ?t ?network ?addr = _ =>
      refine (proj1 (proj1 (dial_takes_first_reachable_address
                              split resolve dial t network addr)
                       eq_refl) 1%nat Fixtures.ip_8844 Fixtures.ip_8844
                eq_refl _ _)
  end.
  - vm_compute. reflexivity.
  - intros [|j] ip' Hj Hl; [|lia]. injection Hl as <-. eexists.
    vm_compute. reflexivity.
Defined.

(** X25: [dial] of the first transport never runs out of bounds, keeps
    the stored addresses and only reorders them: for every dialer, [dial]
    returns, and the list it leaves is a rearrangement of the stored
    list.  If it returns no connection the list is exactly as before and
    (the list not being empty) an error is returned; if it returns a
    connection the error is nil. *)
Theorem dial_only_reorders (Dial : net.IP → Z → result net.IP)
  (t : Doh.transport) :
  ∃ l conn e,
    Doh.dial Dial t = Some (l, (conn, e)) ∧
    l ≡ₚ Doh.addrs t ∧
    (conn = None → l = Doh.addrs t ∧ (Doh.addrs t ≠ [] → is_Some e)) ∧
    (is_Some conn → e = None).
Proof.
  unfold Doh.dial.
  destruct (dial_from_total Dial (Doh.port t) (Doh.addrs t) (Doh.addrs t)
              0 None (drop_0 _)) as (l & [conn e] & Hd & Hp & Hn & Hs).
  exists l, conn, e. split; [done|]. split; [done|]. split; [|done].
  exact Hn.
Qed.

Lemma dial_only_reorders_witness :
  let refuse (ip : net.IP) (port : Z) : result net.IP :=
    Err (LibError "connection refused") in
  let t := Doh.mkTransport "https://dns.google/dns-query" 443
             [Fixtures.ip_8888; Fixtures.ip_8844] (Fixtures.answering []) in
  Doh.dial refuse t
  = Some ([Fixtures.ip_8888; Fixtures.ip_8844],
          (None, Some (LibError "connection refused"))) ∧
  ∃ l conn e, Doh.dial refuse t = Some (l, (conn, e)) ∧ l ≡ₚ Doh.addrs t.
Proof.
  cbv zeta. split; [vm_compute; reflexivity|].
  match goal with
  | |- ∃ l conn e, Doh.dial ?d ?t = _ ∧ _ =>
      destruct (dial_only_reorders d t) as (l & conn & e & Hd & Hp & _)
  end.
  by exists l, conn, e.
Defined.

Lemma summary_agrees_with_result_witness :
  let t := DohClassified.mkTransport "https://dns.google/dns-query"
             "dns.google" 443 [Fixtures.ip_8888] Fixtures.unreachable true in
  ∃ sm, (DohClassified.transport_Query t [x6f; xde; x01; x00]).2 = Some sm ∧
        DohClassified.Status sm = DohClassified.SendFailed.
Proof.
  cbv zeta.
  match goal with
  | |- ∃ sm, (DohClassified.transport_Query ?t ?q).2 = _ ∧ _ =>
      destruct (proj2 (summary_agrees_with_result t q) eq_refl)
        as (sm & Hs & _ & _ & _ & Hst)
  end.
  exists sm. split; [exact Hs|].
  apply (Hst _ (LibError "dial tcp: timeout")). vm_compute. reflexivity.
Defined.

Lemma Add_is_union_witness :
  let s := IPMap.mkIPSet [Fixtures.ip_8844] (Some Fixtures.ip_8844) in
  IPMap.ips (IPMap.Add Fixtures.LookupIP s "dns.google")
    = [Fixtures.ip_8844; Fixtures.ip_8888] ∧
  IPMap.has (IPMap.ips (IPMap.Add Fixtures.LookupIP s "dns.google"))
    Fixtures.ip_8844 = true.
Proof.
  cbv zeta. split; [vm_compute; reflexivity|].
  apply (proj1 (proj2 (Add_is_union Fixtures.LookupIP
                         (IPMap.mkIPSet [Fixtures.ip_8844]
                            (Some Fixtures.ip_8844)) "dns.google"))).
  vm_compute. apply elem_of_cons. right. apply elem_of_cons. by left.
Defined.
